(** * detray: trust-level navigation and ray/surface intersectors

    A shallow embedding of the geometry navigator
    ([detray::navigator], its [state], [init], [update], [update_kernel],
    [update_navigation_state]), of the line intersector and of the
    cylinder-portal intersector.

    Conventions of the embedding:
    - [scalar] values are rationals ([Q]).  The code only compares and
      combines them; rounding, NaN and signed zeros are not represented.
    - iterators into the candidate cache are offsets ([Z]) from
      [m_candidates.begin()]; [std::distance] is a subtraction.
    - an access through an iterator that does not point at an element of
      the cache is undefined in the source; the embedding returns [None]
      for it (option monad, [x <- e ;; k]).
    - the detector is immutable during navigation.  Its queries
      ([visit_neighborhood], [visit_mask<intersection_update>]) are fields
      of the record the state points to.
    - the navigation inspector is [navigation::void_inspector], whose calls
      do nothing. *)

From Stdlib Require Import ZArith QArith Qabs List Bool Lia Lqa.
Import ListNotations.

Set Implicit Arguments.
Open Scope Z_scope.

(** ** Option monad for accesses that may leave the cache *)

Definition obind {A B : Type} (m : option A) (k : A -> option B) : option B :=
  match m with
  | Some a => k a
  | None => None
  end.

Notation "x <- e ;; k" := (obind e (fun x => k))
  (at level 61, e at next level, right associativity).

(** [*(begin + i)] for an iterator offset [i]. *)
Definition deref {A : Type} (l : list A) (i : Z) : option A :=
  if i <? 0 then None else nth_error l (Z.to_nat i).

Fixpoint set_nth {A : Type} (l : list A) (n : nat) (x : A) : option (list A) :=
  match l, n with
  | [], _ => None
  | _ :: t, O => Some (x :: t)
  | h :: t, S n' =>
      match set_nth t n' x with
      | Some t' => Some (h :: t')
      | None => None
      end
  end.

(** [*(begin + i) = x]. *)
Definition assign {A : Type} (l : list A) (i : Z) (x : A) : option (list A) :=
  if i <? 0 then None else set_nth l (Z.to_nat i) x.

(** [a < b] on scalars. *)
Definition Qlt_bool (a b : Q) : bool := negb (Qle_bool b a).

(** ** namespace [detray::navigation] *)

Module navigation.

Inductive direction : Type := e_backward | e_forward.

Inductive status : Type :=
| e_abort            (* -3 *)
| e_on_target        (* -2 *)
| e_unknown          (* -1 *)
| e_towards_object   (*  0 *)
| e_on_module        (*  1 *)
| e_on_portal.       (*  2 *)

Inductive trust_level : Type :=
| e_no_trust   (* 0 *)
| e_fair       (* 1 *)
| e_high       (* 3 *)
| e_full.      (* 4 *)

(** Underlying value of the enumerator; [<=] on the enum compares these. *)
Definition trust_value (t : trust_level) : Z :=
  match t with
  | e_no_trust => 0
  | e_fair => 1
  | e_high => 3
  | e_full => 4
  end.

Definition trust_leb (a b : trust_level) : bool :=
  trust_value a <=? trust_value b.

Definition trust_eqb (a b : trust_level) : bool :=
  trust_value a =? trust_value b.

Definition status_eqb (a b : status) : bool :=
  match a, b with
  | e_abort, e_abort | e_on_target, e_on_target | e_unknown, e_unknown
  | e_towards_object, e_towards_object | e_on_module, e_on_module
  | e_on_portal, e_on_portal => true
  | _, _ => false
  end.

Record config : Type := {
  mask_tolerance : Q;
  on_surface_tolerance : Q;
  overstep_tolerance : Q;
  search_window : N * N
}.

End navigation.

(** ** namespace [detray::intersection] *)

Module intersection.

Inductive direction : Type := e_opposite | e_along.

Inductive status : Type := e_outside | e_missed | e_inside.

Definition status_eqb (a b : status) : bool :=
  match a, b with
  | e_outside, e_outside | e_missed, e_missed | e_inside, e_inside => true
  | _, _ => false
  end.

End intersection.

(** ** [intersection2D] *)

Module intersection2D.

Record t (surface_descriptor nav_link : Type) : Type := {
  path : Q;
  local : Q * Q;
  sf_desc : surface_descriptor;
  volume_link : nav_link;
  direction : intersection.direction;
  status : intersection.status;
  cos_incidence_angle : Q
}.

End intersection2D.

(** ** [detray::navigator] *)

Module navigator.

(** One instantiation of the navigator template: the types it is
    compiled for and the helpers of [detray::detail] it calls.
    - [track_t]: the track parametrisation held by the stepper state
      ([propagation._stepping()]);
    - [surface_type]: [detector_t::surface_type], with the two queries the
      navigator makes on it, [sf_desc.is_portal()] and
      [sf_desc.barcode().is_invalid()];
    - [nav_link_type] and [detail::is_invalid_value] on it;
    - [scalar_max]: [std::numeric_limits<scalar_type>::max()];
    - [sequential_sort]: [detail::sequential_sort] on a range of
      intersections. *)
Class instantiation : Type := {
  track_t : Type;
  surface_type : Type;
  is_portal : surface_type -> bool;
  barcode_is_invalid : surface_type -> bool;
  nav_link_type : Type;
  is_invalid_value : nav_link_type -> bool;
  scalar_max : Q;
  sequential_sort :
    list (intersection2D.t surface_type nav_link_type)
    -> list (intersection2D.t surface_type nav_link_type)
}.

Section Detector.

Context {inst : instantiation}.

Definition intersection_type : Type := intersection2D.t surface_type nav_link_type.

(** The queries on the detector.  [visit_neighborhood] is
    [volume.visit_neighborhood<candidate_search>] started on an empty
    cache: the candidates found around the track in the given volume.
    [visit_mask_update] is [sf.visit_mask<intersection_update>]: it
    re-intersects one candidate with the given mask and overstep
    tolerances and says whether the track can still reach it. *)
Record detector_type : Type := {
  visit_neighborhood :
    nav_link_type -> track_t -> navigation.config -> list intersection_type;
  visit_mask_update :
    track_t -> intersection_type -> Q -> Q -> intersection_type * bool
}.

(** *** [navigator::state] *)

Record state : Type := {
  m_heartbeat : bool;
  m_detector : detector_type;
  m_candidates : list intersection_type;
  m_next : Z;
  m_last : Z;
  m_status : navigation.status;
  m_direction : navigation.direction;
  m_trust_level : navigation.trust_level;
  m_volume_index : nav_link_type
}.

Definition with_heartbeat (s : state) (b : bool) : state :=
  {| m_heartbeat := b; m_detector := m_detector s;
     m_candidates := m_candidates s; m_next := m_next s; m_last := m_last s;
     m_status := m_status s; m_direction := m_direction s;
     m_trust_level := m_trust_level s; m_volume_index := m_volume_index s |}.

Definition with_candidates (s : state) (c : list intersection_type) : state :=
  {| m_heartbeat := m_heartbeat s; m_detector := m_detector s;
     m_candidates := c; m_next := m_next s; m_last := m_last s;
     m_status := m_status s; m_direction := m_direction s;
     m_trust_level := m_trust_level s; m_volume_index := m_volume_index s |}.

Definition with_status (s : state) (st : navigation.status) : state :=
  {| m_heartbeat := m_heartbeat s; m_detector := m_detector s;
     m_candidates := m_candidates s; m_next := m_next s; m_last := m_last s;
     m_status := st; m_direction := m_direction s;
     m_trust_level := m_trust_level s; m_volume_index := m_volume_index s |}.

Definition with_trust_level (s : state) (t : navigation.trust_level) : state :=
  {| m_heartbeat := m_heartbeat s; m_detector := m_detector s;
     m_candidates := m_candidates s; m_next := m_next s; m_last := m_last s;
     m_status := m_status s; m_direction := m_direction s;
     m_trust_level := t; m_volume_index := m_volume_index s |}.

Definition n_candidates (s : state) : Z := m_last s - m_next s.

(** [current()] is the iterator [m_next - 1]; [current_candidate] reads it. *)
Definition current (s : state) : Z := m_next s - 1.

Definition current_candidate (s : state) : option intersection_type :=
  deref (m_candidates s) (current s).

Definition next (s : state) : Z := m_next s.

Definition next_candidate (s : state) : option intersection_type :=
  deref (m_candidates s) (next s).

Definition volume (s : state) : nav_link_type := m_volume_index s.

(** [set_volume]: the argument is a [dindex] converted back to
    [nav_link_type]; the navigator only passes values of [nav_link_type], on
    which the conversion is the identity. *)
Definition set_volume (s : state) (v : nav_link_type) : state :=
  {| m_heartbeat := m_heartbeat s; m_detector := m_detector s;
     m_candidates := m_candidates s; m_next := m_next s; m_last := m_last s;
     m_status := m_status s; m_direction := m_direction s;
     m_trust_level := m_trust_level s; m_volume_index := v |}.

Definition status (s : state) : navigation.status := m_status s.

Definition direction (s : state) : navigation.direction := m_direction s.

Definition set_direction (s : state) (dir : navigation.direction) : state :=
  {| m_heartbeat := m_heartbeat s; m_detector := m_detector s;
     m_candidates := m_candidates s; m_next := m_next s; m_last := m_last s;
     m_status := m_status s; m_direction := dir;
     m_trust_level := m_trust_level s; m_volume_index := m_volume_index s |}.

Definition trust_level (s : state) : navigation.trust_level := m_trust_level s.

Definition set_no_trust (s : state) : state :=
  with_trust_level s navigation.e_no_trust.

Definition set_full_trust (s : state) : state :=
  with_trust_level s
    (if navigation.trust_leb (m_trust_level s) navigation.e_full
     then m_trust_level s else navigation.e_full).

Definition set_high_trust (s : state) : state :=
  with_trust_level s
    (if navigation.trust_leb (m_trust_level s) navigation.e_high
     then m_trust_level s else navigation.e_high).

Definition set_fair_trust (s : state) : state :=
  with_trust_level s
    (if navigation.trust_leb (m_trust_level s) navigation.e_fair
     then m_trust_level s else navigation.e_fair).

Definition is_on_module (s : state) : bool :=
  navigation.status_eqb (m_status s) navigation.e_on_module.

Definition is_on_portal (s : state) : bool :=
  navigation.status_eqb (m_status s) navigation.e_on_portal.

Definition is_exhausted (s : state) : bool := (m_last s - m_next s) <=? 0.

Definition is_complete (s : state) : bool :=
  navigation.status_eqb (m_status s) navigation.e_on_target
  && negb (m_heartbeat s).

Definition set_next (s : state) (new_next : Z) : state :=
  {| m_heartbeat := m_heartbeat s; m_detector := m_detector s;
     m_candidates := m_candidates s; m_next := new_next; m_last := m_last s;
     m_status := m_status s; m_direction := m_direction s;
     m_trust_level := m_trust_level s; m_volume_index := m_volume_index s |}.

Definition set_last (s : state) (new_last : Z) : state :=
  {| m_heartbeat := m_heartbeat s; m_detector := m_detector s;
     m_candidates := m_candidates s; m_next := m_next s; m_last := new_last;
     m_status := m_status s; m_direction := m_direction s;
     m_trust_level := m_trust_level s; m_volume_index := m_volume_index s |}.

(** [clear]: empty cache, both cursors at its end. *)
Definition clear (s : state) : state :=
  set_last (set_next (with_candidates s []) 0) 0.

(** [abort]: returns the (dead) heartbeat with the changed state. *)
Definition abort (s : state) : state * bool :=
  let s1 := with_status s navigation.e_abort in
  let s2 := with_heartbeat s1 false in
  let s3 := with_trust_level s2 navigation.e_full in
  (s3, m_heartbeat s3).

(** [exit]: returns the (dead) heartbeat with the changed state. *)
Definition exit (s : state) : state * bool :=
  let s1 := with_status s navigation.e_on_target in
  let s2 := with_heartbeat s1 false in
  let s3 := with_trust_level s2 navigation.e_full in
  let s4 := clear s3 in
  (s4, m_heartbeat s4).

Definition is_on_object (candidate : intersection_type)
    (cfg : navigation.config) : bool :=
  Qlt_bool (Qabs (intersection2D.path candidate))
           (navigation.on_surface_tolerance cfg).

(** *** The navigator proper *)

(** The propagation state as far as the navigator reads and writes it. *)
Record propagator_state : Type := {
  _stepping : track_t;
  _navigation : state
}.

Definition with_navigation (p : propagator_state) (n : state) : propagator_state :=
  {| _stepping := _stepping p; _navigation := n |}.

Definition with_path (c : intersection_type) (x : Q) : intersection_type :=
  {| intersection2D.path := x;
     intersection2D.local := intersection2D.local c;
     intersection2D.sf_desc := intersection2D.sf_desc c;
     intersection2D.volume_link := intersection2D.volume_link c;
     intersection2D.direction := intersection2D.direction c;
     intersection2D.status := intersection2D.status c;
     intersection2D.cos_incidence_angle := intersection2D.cos_incidence_angle c |}.

(** [update_candidate]: the candidate after the call and whether the track
    can reach it. *)
Definition update_candidate (candidate : intersection_type) (track : track_t)
    (det : detector_type) (cfg : navigation.config) : intersection_type * bool :=
  if barcode_is_invalid (intersection2D.sf_desc candidate) then (candidate, false)
  else
    visit_mask_update det track candidate
      (if is_portal (intersection2D.sf_desc candidate)
       then 0%Q else navigation.mask_tolerance cfg)
      (navigation.overstep_tolerance cfg).

(** [update_candidate] on the element an iterator [it] points at; the
    element is rewritten in place. *)
Definition update_candidate_at (nav : state) (it : Z) (track : track_t)
    (cfg : navigation.config) : option (state * bool) :=
  c <- deref (m_candidates nav) it ;;
  let r := update_candidate c track (m_detector nav) cfg in
  l <- assign (m_candidates nav) it (fst r) ;;
  Some (with_candidates nav l, snd r).

Fixpoint find_if {A : Type} (pred : A -> bool) (l : list A) : Z :=
  match l with
  | [] => 0
  | x :: t => if pred x then 0 else 1 + find_if pred t
  end.

(** [find_invalid]: first candidate of the whole cache whose path is the
    scalar maximum, or the end of the cache. *)
Definition find_invalid (candidates : list intersection_type) : Z :=
  find_if (fun candidate => Qeq_bool (intersection2D.path candidate) scalar_max)
          candidates.

Definition update_navigation_state (cfg : navigation.config)
    (navigation : state) : option state :=
  c <- next_candidate navigation ;;
  nav1 <- (if is_on_object c cfg then
             let nav' := set_next navigation (next navigation + 1) in
             cur <- current_candidate nav' ;;
             Some (with_status nav'
                     (if is_portal (intersection2D.sf_desc cur)
                      then navigation.e_on_portal
                      else navigation.e_on_module))
           else Some (with_status navigation navigation.e_towards_object)) ;;
  Some (with_trust_level nav1
          (if is_exhausted nav1 || is_on_portal nav1
           then navigation.e_no_trust else navigation.e_full)).

Definition init (propagation : propagator_state) (cfg : navigation.config)
    : option (propagator_state * bool) :=
  let navigation := _navigation propagation in
  let det := m_detector navigation in
  let track := _stepping propagation in
  let nav1 := with_heartbeat (clear navigation) true in
  let nav2 := with_candidates nav1
                (visit_neighborhood det (volume navigation) track cfg) in
  let nav3 := with_candidates nav2 (sequential_sort (m_candidates nav2)) in
  let nav4 := set_next nav3 0 in
  let nav5 := set_last nav4 (Z.of_nat (length (m_candidates nav4))) in
  nav6 <- update_navigation_state cfg nav5 ;;
  let nav7 :=
    if negb (navigation.trust_eqb (trust_level nav6) navigation.e_full)
    then with_heartbeat nav6 false else nav6 in
  Some (with_navigation propagation nav7, m_heartbeat nav7).

(** [m_heartbeat &= init(propagation, cfg)]: the call comes first, the
    flag it left is then and-ed with its result. *)
Definition heartbeat_and_init (propagation : propagator_state)
    (cfg : navigation.config) : option propagator_state :=
  r <- init propagation cfg ;;
  let navigation := _navigation (fst r) in
  Some (with_navigation (fst r)
          (with_heartbeat navigation (m_heartbeat navigation && snd r))).

(** The high-trust block of [update_kernel].  [inl]: the kernel returns
    from inside the block; [inr]: control leaves the block and reaches the
    tests that follow it. *)
Definition high_trust_update (propagation : propagator_state)
    (cfg : navigation.config) : option (propagator_state + propagator_state) :=
  let navigation := _navigation propagation in
  let track := _stepping propagation in
  r1 <- update_candidate_at navigation (next navigation) track cfg ;;
  if negb (snd r1) then
    Some (inl (with_navigation propagation
                 (set_no_trust (with_status (fst r1) navigation.e_unknown))))
  else
    nav2 <- update_navigation_state cfg (fst r1) ;;
    if navigation.status_eqb (status nav2) navigation.e_towards_object
       || navigation.trust_eqb (trust_level nav2) navigation.e_no_trust
    then Some (inl (with_navigation propagation nav2))
    else
      r3 <- update_candidate_at nav2 (next nav2) track cfg ;;
      if snd r3 then Some (inl (with_navigation propagation (fst r3)))
      else Some (inr (with_navigation propagation (set_fair_trust (fst r3)))).

(** One pass of the range-for of the fair-trust block. *)
Definition refresh_candidate (track : track_t) (det : detector_type)
    (cfg : navigation.config) (candidate : intersection_type) : intersection_type :=
  let r := update_candidate candidate track det cfg in
  if negb (snd r) then with_path (fst r) scalar_max else fst r.

(** The fair-trust block.  The loop and the sort run over the range
    [[m_next, m_last)], which has to be a range of the cache. *)
Definition fair_trust_update (propagation : propagator_state)
    (cfg : navigation.config) : option propagator_state :=
  let navigation := _navigation propagation in
  let track := _stepping propagation in
  let l := m_candidates navigation in
  if (0 <=? m_next navigation) && (m_next navigation <=? m_last navigation)
     && (m_last navigation <=? Z.of_nat (length l))
  then
    let first := Z.to_nat (m_next navigation) in
    let len := Z.to_nat (m_last navigation - m_next navigation) in
    let range := firstn len (skipn first l) in
    let refreshed := map (refresh_candidate track (m_detector navigation) cfg) range in
    let l' := firstn first l ++ sequential_sort refreshed
              ++ skipn (first + len) l in
    let nav1 := with_candidates navigation l' in
    let nav2 := set_next nav1 (m_next nav1) in
    let nav3 := set_last nav2 (find_invalid (m_candidates nav2)) in
    nav4 <- update_navigation_state cfg nav3 ;;
    Some (with_navigation propagation nav4)
  else None.

(** What follows the high-trust block in [update_kernel]. *)
Definition update_kernel_tail (propagation : propagator_state)
    (cfg : navigation.config) : option propagator_state :=
  let navigation := _navigation propagation in
  if navigation.trust_eqb (trust_level navigation) navigation.e_fair then
    fair_trust_update propagation cfg
  else if navigation.trust_eqb (trust_level navigation) navigation.e_no_trust then
    heartbeat_and_init propagation cfg
  else Some propagation.

Definition update_kernel (propagation : propagator_state)
    (cfg : navigation.config) : option propagator_state :=
  let navigation := _navigation propagation in
  if navigation.trust_eqb (trust_level navigation) navigation.e_full then
    Some propagation
  else
    r <- (if navigation.trust_eqb (trust_level navigation) navigation.e_high
             || ((n_candidates navigation =? 1)
                 && navigation.trust_eqb (trust_level navigation) navigation.e_high)
          then high_trust_update propagation cfg
          else Some (inr propagation)) ;;
    match r with
    | inl done => Some done
    | inr continued => update_kernel_tail continued cfg
    end.

(** [update_kernel] with the high-trust guard reduced to
    [trust_level == high]; the rest is the same code. *)
Definition update_kernel_simplified (propagation : propagator_state)
    (cfg : navigation.config) : option propagator_state :=
  let navigation := _navigation propagation in
  if navigation.trust_eqb (trust_level navigation) navigation.e_full then
    Some propagation
  else
    r <- (if navigation.trust_eqb (trust_level navigation) navigation.e_high
          then high_trust_update propagation cfg
          else Some (inr propagation)) ;;
    match r with
    | inl done => Some done
    | inr continued => update_kernel_tail continued cfg
    end.

Definition update (propagation : propagator_state) (cfg : navigation.config)
    : option (propagator_state * bool) :=
  p1 <- update_kernel propagation cfg ;;
  let navigation := _navigation p1 in
  if navigation.trust_eqb (trust_level navigation) navigation.e_full then
    Some (p1, m_heartbeat navigation)
  else if is_on_portal navigation then
    cur <- current_candidate navigation ;;
    let nav1 := set_volume navigation (intersection2D.volume_link cur) in
    if is_invalid_value (volume nav1) then
      let nav2 := fst (exit nav1) in
      Some (with_navigation p1 nav2, m_heartbeat nav2)
    else
      r <- init (with_navigation p1 nav1) cfg ;;
      let nav3 := with_trust_level (_navigation (fst r)) navigation.e_full in
      let nav4 := with_heartbeat nav3 true in
      Some (with_navigation (fst r) nav4, m_heartbeat nav4)
  else
    p2 <- heartbeat_and_init p1 cfg ;;
    let nav2 := _navigation p2 in
    let nav3 :=
      if negb (navigation.trust_eqb (trust_level nav2) navigation.e_full)
         || is_exhausted nav2
      then fst (abort nav2) else nav2 in
    Some (with_navigation p2 nav3, m_heartbeat nav3).

(** A sequence of [update] calls, one per stepper state and configuration;
    collects the heartbeats returned. *)
Fixpoint run_updates (steps : list (track_t * navigation.config))
    (navigation : state) : option (state * list bool) :=
  match steps with
  | [] => Some (navigation, [])
  | (track, cfg) :: rest =>
      r <- update {| _stepping := track; _navigation := navigation |} cfg ;;
      r' <- run_updates rest (_navigation (fst r)) ;;
      Some (fst r', snd r :: snd r')
  end.

(** *** Conditions on the state used to describe navigator calls *)

(** The state right after [update_navigation_state] has classified it. *)
Definition refreshed (nav : state) : Prop :=
  (m_status nav = navigation.e_towards_object
   \/ m_status nav = navigation.e_on_module
   \/ m_status nav = navigation.e_on_portal)
  /\ (m_status nav = navigation.e_on_portal
      -> exists cur, current_candidate nav = Some cur)
  /\ (m_trust_level nav = navigation.e_full
      \/ m_trust_level nav = navigation.e_no_trust)
  /\ (m_trust_level nav = navigation.e_full
      -> is_exhausted nav = false /\ m_status nav <> navigation.e_on_portal).

Definition terminal (st : navigation.status) : Prop :=
  st = navigation.e_on_target \/ st = navigation.e_abort.

(** What [update_kernel] leaves when it did not return at once: either a
    freshly classified state, or the broken high-trust state; and full
    trust keeps a live heartbeat alive. *)
Definition kernel_post (hb0 : bool) (nav : state) : Prop :=
  (refreshed nav
   \/ (m_status nav = navigation.e_unknown
       /\ m_trust_level nav = navigation.e_no_trust))
  /\ (m_trust_level nav = navigation.e_full -> hb0 = true
      -> m_heartbeat nav = true).

(** The part of the propagation state that a navigator call has no
    business changing: the stepper's track, the detector, the direction
    and, a portal crossing apart, the volume. *)
Definition frame_preserved (p q : propagator_state) : Prop :=
  _stepping q = _stepping p
  /\ m_detector (_navigation q) = m_detector (_navigation p)
  /\ m_direction (_navigation q) = m_direction (_navigation p)
  /\ m_volume_index (_navigation q) = m_volume_index (_navigation p).

End Detector.

End navigator.

(** ** Intersectors *)

Module intersectors.

Definition vector3 : Type := (Q * Q * Q)%type.
Definition point3 : Type := vector3.
Definition point2 : Type := (Q * Q)%type.

Definition dot (a b : vector3) : Q :=
  let '(ax, ay, az) := a in
  let '(bx, by_, bz) := b in
  (ax * bx + ay * by_ + az * bz)%Q.

Definition vsub (a b : vector3) : vector3 :=
  let '(ax, ay, az) := a in
  let '(bx, by_, bz) := b in
  ((ax - bx)%Q, (ay - by_)%Q, (az - bz)%Q).

Definition vadd (a b : vector3) : vector3 :=
  let '(ax, ay, az) := a in
  let '(bx, by_, bz) := b in
  ((ax + bx)%Q, (ay + by_)%Q, (az + bz)%Q).

Definition vscale (a : vector3) (k : Q) : vector3 :=
  let '(ax, ay, az) := a in ((ax * k)%Q, (ay * k)%Q, (az * k)%Q).

(** A placement: the 4x4 matrix by row and column. *)
Record transform3 : Type := { matrix : nat -> nat -> Q }.

(** [getter::vector<3>(m, row, col)]. *)
Definition getter_vector3 (m : nat -> nat -> Q) (row col : nat) : vector3 :=
  (m row col, m (S row) col, m (S (S row)) col).

Definition translation (trf : transform3) : point3 :=
  getter_vector3 (matrix trf) 0 3.

Record ray_type : Type := { pos : point3; dir : vector3 }.

(** [detail::signbit] on a scalar. *)
Definition signbit (x : Q) : bool := Qlt_bool x 0.

(** The intersection type an intersector is instantiated with;
    [blank] is the default-constructed value ([intersection_type is;]). *)
Class intersection_traits : Type := {
  surface_t : Type;
  nav_link_t : Type;
  blank : intersection2D.t surface_t nav_link_t
}.

(** [detail::quadratic_equation]: number of solutions and the two roots. *)
Record quadratic_equation : Type := {
  solutions : Z;
  smaller : Q;
  larger : Q
}.

(** The base class [cylinder_intersector] as far as the portal variant
    calls it. *)
Class cylinder_intersector {I : intersection_traits} : Type := {
  cylinder_mask : Type;
  solve_intersection :
    ray_type -> cylinder_mask -> transform3 -> quadratic_equation;
  build_candidate :
    ray_type -> cylinder_mask -> transform3 -> Q -> Q -> Q
    -> intersection2D.t surface_t nav_link_t
}.

Section Intersection.

Context {I : intersection_traits} {base : cylinder_intersector}.

Definition intersection_t : Type := intersection2D.t surface_t nav_link_t.

Definition with_path (c : intersection_t) (x : Q) : intersection_t :=
  {| intersection2D.path := x;
     intersection2D.local := intersection2D.local c;
     intersection2D.sf_desc := intersection2D.sf_desc c;
     intersection2D.volume_link := intersection2D.volume_link c;
     intersection2D.direction := intersection2D.direction c;
     intersection2D.status := intersection2D.status c;
     intersection2D.cos_incidence_angle := intersection2D.cos_incidence_angle c |}.

Definition with_local (c : intersection_t) (l : point2) : intersection_t :=
  {| intersection2D.path := intersection2D.path c;
     intersection2D.local := l;
     intersection2D.sf_desc := intersection2D.sf_desc c;
     intersection2D.volume_link := intersection2D.volume_link c;
     intersection2D.direction := intersection2D.direction c;
     intersection2D.status := intersection2D.status c;
     intersection2D.cos_incidence_angle := intersection2D.cos_incidence_angle c |}.

Definition with_status (c : intersection_t) (st : intersection.status)
    : intersection_t :=
  {| intersection2D.path := intersection2D.path c;
     intersection2D.local := intersection2D.local c;
     intersection2D.sf_desc := intersection2D.sf_desc c;
     intersection2D.volume_link := intersection2D.volume_link c;
     intersection2D.direction := intersection2D.direction c;
     intersection2D.status := st;
     intersection2D.cos_incidence_angle := intersection2D.cos_incidence_angle c |}.

Definition with_sf_desc (c : intersection_t) (sf : surface_t) : intersection_t :=
  {| intersection2D.path := intersection2D.path c;
     intersection2D.local := intersection2D.local c;
     intersection2D.sf_desc := sf;
     intersection2D.volume_link := intersection2D.volume_link c;
     intersection2D.direction := intersection2D.direction c;
     intersection2D.status := intersection2D.status c;
     intersection2D.cos_incidence_angle := intersection2D.cos_incidence_angle c |}.

(** *** [line_intersector] *)

(** What the intersector asks of a line mask. *)
Record line_mask : Type := {
  to_local_frame : transform3 -> point3 -> vector3 -> point2;
  is_inside : point2 -> Q -> intersection.status;
  volume_link : nav_link_t
}.

(** Path length to the point of closest approach on the track ([A]);
    meaningful when the wire is not parallel to the track.  The source
    evaluates this expression, and the parallel test below, in rounded
    [scalar_type] arithmetic; the properties stated about the intersector
    use both only through the comparisons the code makes on them. *)
Definition closest_approach (ray : ray_type) (trf : transform3) : Q :=
  let _z := getter_vector3 (matrix trf) 0 2 in
  let _t := translation trf in
  let _d := dir ray in
  let _p := pos ray in
  let zd := dot _z _d in
  let denom := (1 - zd * zd)%Q in
  let t2l := vsub _t _p in
  let t2l_on_line := dot t2l _z in
  let t2l_on_track := dot t2l _d in
  (1 / denom * (t2l_on_track - t2l_on_line * zd))%Q.

(** [1 - (z.d)^2 < 1e-5]: the wire is parallel to the track. *)
Definition parallel (ray : ray_type) (trf : transform3) : bool :=
  let zd := dot (getter_vector3 (matrix trf) 0 2) (dir ray) in
  Qlt_bool (1 - zd * zd)%Q (1 # 100000).

Definition line_intersector (ray : ray_type) (sf : surface_t) (mask : line_mask)
    (trf : transform3) (mask_tolerance overstep_tol : Q) : intersection_t :=
  let is_ := blank in
  let _z := getter_vector3 (matrix trf) 0 2 in
  let _d := dir ray in
  let _p := pos ray in
  let zd := dot _z _d in
  if parallel ray trf then with_status is_ intersection.e_missed
  else
    let A := closest_approach ray trf in
    let is1 := with_path is_ A in
    if Qle_bool overstep_tol (intersection2D.path is1) then
      let m := vadd _p (vscale _d A) in
      let is2 := with_local is1 (to_local_frame mask trf m _d) in
      let is3 := with_status is2
                   (is_inside mask (intersection2D.local is2) mask_tolerance) in
      if intersection.status_eqb (intersection2D.status is3) intersection.e_inside
      then
        {| intersection2D.path := intersection2D.path is3;
           intersection2D.local := intersection2D.local is3;
           intersection2D.sf_desc := sf;
           intersection2D.volume_link := volume_link mask;
           intersection2D.direction :=
             if signbit (intersection2D.path is3)
             then intersection.e_opposite else intersection.e_along;
           intersection2D.status := intersection2D.status is3;
           intersection2D.cos_incidence_angle := Qabs zd |}
      else is3
    else is1.

(** *** [cylinder_portal_intersector] *)

Definition cylinder_portal_intersector (ray : ray_type) (sf : surface_t)
    (mask : cylinder_mask) (trf : transform3) (mask_tolerance overstep_tol : Q)
    : intersection_t :=
  let is_ := blank in
  let qe := solve_intersection ray mask trf in
  if (0 <? solutions qe) && Qlt_bool overstep_tol (larger qe) then
    let t := if Qlt_bool overstep_tol (smaller qe)
             then smaller qe else larger qe in
    with_sf_desc (build_candidate ray mask trf t mask_tolerance overstep_tol) sf
  else with_status is_ intersection.e_missed.

(** *** The in-place variants *)

(** [line_intersector::update]: the record is overwritten with a fresh
    intersection of the surface it names. *)
Definition line_intersector_update (ray : ray_type) (sfi : intersection_t)
    (mask : line_mask) (trf : transform3) (mask_tolerance overstep_tol : Q)
    : intersection_t :=
  line_intersector ray (intersection2D.sf_desc sfi) mask trf mask_tolerance
    overstep_tol.

(** [cylinder_portal_intersector::update]. *)
Definition cylinder_portal_intersector_update (ray : ray_type)
    (sfi : intersection_t) (mask : cylinder_mask) (trf : transform3)
    (mask_tolerance overstep_tol : Q) : intersection_t :=
  cylinder_portal_intersector ray (intersection2D.sf_desc sfi) mask trf
    mask_tolerance overstep_tol.

End Intersection.

End intersectors.

(** ** A telescope detector for running the navigator

    Planes at fixed positions along the z axis in one volume, closed by a
    portal; the track moves along +z and is given by its z position.  The
    path to a plane is the difference of the positions. *)

Module telescope.

Record plane : Type := {
  index : N;
  portal : bool;
  position : Q;
  link : N
}.

Definition is_portal (sf : plane) : bool := portal sf.

(** No plane of the telescope carries an invalid barcode. *)
Definition barcode_is_invalid (sf : plane) : bool := false.

(** Volume links are 16 bit wide; the invalid value is the largest. *)
Definition is_invalid_value (v : N) : bool := N.eqb v 65535.

(** Largest finite single-precision value. *)
Definition scalar_max : Q := 340282346638528859811704183484516925440 # 1.

Definition candidate : Type := intersection2D.t plane N.

Definition intersect (track : Q) (sf : plane) : candidate :=
  {| intersection2D.path := position sf - track;
     intersection2D.local := (0%Q, 0%Q);
     intersection2D.sf_desc := sf;
     intersection2D.volume_link := link sf;
     intersection2D.direction :=
       if Qlt_bool (position sf - track) 0
       then intersection.e_opposite else intersection.e_along;
     intersection2D.status := intersection.e_inside;
     intersection2D.cos_incidence_angle := 1 |}.

Definition reachable (overstep_tol : Q) (c : candidate) : bool :=
  Qle_bool overstep_tol (intersection2D.path c).

Fixpoint insert (c : candidate) (l : list candidate) : list candidate :=
  match l with
  | [] => [c]
  | h :: t =>
      if Qlt_bool (intersection2D.path c) (intersection2D.path h)
      then c :: h :: t else h :: insert c t
  end.

Definition sequential_sort (l : list candidate) : list candidate :=
  fold_right insert [] l.

(** The navigator instantiated for the telescope. *)
#[global] Instance inst : navigator.instantiation :=
  {| navigator.track_t := Q;
     navigator.surface_type := plane;
     navigator.is_portal := is_portal;
     navigator.barcode_is_invalid := barcode_is_invalid;
     navigator.nav_link_type := N;
     navigator.is_invalid_value := is_invalid_value;
     navigator.scalar_max := scalar_max;
     navigator.sequential_sort := sequential_sort |}.

Definition detector (planes : N -> list plane) : navigator.detector_type :=
  {| navigator.visit_neighborhood := fun vol track cfg =>
       filter (reachable (navigation.overstep_tolerance cfg))
              (map (intersect track) (planes vol));
     navigator.visit_mask_update := fun track c mask_tol overstep_tol =>
       let c' := intersect track (intersection2D.sf_desc c) in
       (c', reachable overstep_tol c') |}.

(** Tolerances in micrometres. *)
Definition cfg : navigation.config :=
  {| navigation.mask_tolerance := 15;
     navigation.on_surface_tolerance := 1;
     navigation.overstep_tolerance := -100;
     navigation.search_window := (0%N, 0%N) |}.

Definition module0 : plane :=
  {| index := 0; portal := false; position := 0; link := 0 |}.
Definition module1 : plane :=
  {| index := 1; portal := false; position := 10000; link := 0 |}.
Definition portal_to_1 : plane :=
  {| index := 2; portal := true; position := 20000; link := 1 |}.
Definition module3 : plane :=
  {| index := 3; portal := false; position := 30000; link := 1 |}.
Definition world_portal : plane :=
  {| index := 4; portal := true; position := 40000; link := 65535 |}.

(** Volume 0: two modules and the portal to volume 1; volume 1: one
    module and the portal out of the world; volume 2: a single module. *)
Definition planes (vol : N) : list plane :=
  match vol with
  | 0%N => [module0; module1; portal_to_1]
  | 1%N => [module3; world_portal]
  | 2%N => [module0]
  | _ => []
  end.

Definition start (vol : N) (trust : navigation.trust_level)
    : navigator.state :=
  {| navigator.m_heartbeat := false;
     navigator.m_detector := detector planes;
     navigator.m_candidates := [];
     navigator.m_next := 0;
     navigator.m_last := 0;
     navigator.m_status := navigation.e_unknown;
     navigator.m_direction := navigation.e_forward;
     navigator.m_trust_level := trust;
     navigator.m_volume_index := vol |}.

Definition at_track (track : Q) (nav : navigator.state)
    : navigator.propagator_state :=
  {| navigator._stepping := track; navigator._navigation := nav |}.

(** The state [init] leaves for a track at the given position. *)
Definition initialised (track : Q) (vol : N) : navigator.state :=
  match navigator.init (at_track track (start vol navigation.e_no_trust)) cfg with
  | Some r => navigator._navigation (fst r)
  | None => start vol navigation.e_no_trust
  end.

(** The propagation state [update_kernel] leaves. *)
Definition after_kernel (p : navigator.propagator_state)
    : navigator.propagator_state :=
  match navigator.update_kernel p cfg with
  | Some p1 => p1
  | None => p
  end.

(** The value a call returned, or a fallback when it did not return. *)
Definition returned {A : Type} (call : option A) (fallback : A) : A :=
  match call with
  | Some x => x
  | None => fallback
  end.

(** What a navigator call shows to the propagator. *)
Definition observe (r : option (navigator.propagator_state * bool))
    : option (bool * bool * navigation.status * navigation.trust_level * N) :=
  match r with
  | Some (p, hb) =>
      let nav := navigator._navigation p in
      Some (hb, navigator.m_heartbeat nav, navigator.status nav,
            navigator.trust_level nav, navigator.volume nav)
  | None => None
  end.

End telescope.

(** ** A wire and a cylinder portal for running the intersectors

    A wire along the z axis at x = -100 and a track along +x from the
    origin: the closest approach lies 100 behind the track.  The cylinder
    portal has its axis on z; the track starts inside it. *)

Module wire.

Definition trf : intersectors.transform3 :=
  {| intersectors.matrix := fun row col =>
       match row, col with
       | 0%nat, 0%nat | 1%nat, 1%nat | 2%nat, 2%nat | 3%nat, 3%nat => 1%Q
       | 0%nat, 3%nat => (-100)%Q
       | _, _ => 0%Q
       end |}.

Definition ray : intersectors.ray_type :=
  {| intersectors.pos := (0%Q, 0%Q, 0%Q);
     intersectors.dir := (1%Q, 0%Q, 0%Q) |}.

Definition blank_intersection : intersection2D.t N N :=
  {| intersection2D.path := 0;
     intersection2D.local := (0%Q, 0%Q);
     intersection2D.sf_desc := 0%N;
     intersection2D.volume_link := 65535%N;
     intersection2D.direction := intersection.e_along;
     intersection2D.status := intersection.e_missed;
     intersection2D.cos_incidence_angle := 0 |}.

(** Intersections of surfaces and volume links indexed by [N]. *)
#[global] Instance traits : intersectors.intersection_traits :=
  {| intersectors.surface_t := N;
     intersectors.nav_link_t := N;
     intersectors.blank := blank_intersection |}.

(** A mask without bounds. *)
Definition unbounded : intersectors.line_mask :=
  {| intersectors.to_local_frame := fun _ _ _ => (0%Q, 0%Q);
     intersectors.is_inside := fun _ _ => intersection.e_inside;
     intersectors.volume_link := 0%N |}.

(** Roots of a track along x inside a cylinder of the given radius around
    the z axis. *)
Definition solve_intersection (r : intersectors.ray_type) (radius : Q)
    (_ : intersectors.transform3) : intersectors.quadratic_equation :=
  let x0 := fst (fst (intersectors.pos r)) in
  {| intersectors.solutions := 2;
     intersectors.smaller := - radius - x0;
     intersectors.larger := radius - x0 |}.

Definition build_candidate (_ : intersectors.ray_type) (_ : Q)
    (_ : intersectors.transform3) (t _ _ : Q) : intersection2D.t N N :=
  intersectors.with_status (intersectors.with_path blank_intersection t)
    intersection.e_inside.

#[global] Instance base : intersectors.cylinder_intersector :=
  {| intersectors.cylinder_mask := Q;
     intersectors.solve_intersection := solve_intersection;
     intersectors.build_candidate := build_candidate |}.

End wire.

(** * Properties *)

Lemma Qlt_bool_iff (a b : Q) : Qlt_bool a b = true <-> (a < b)%Q.
Proof.
  unfold Qlt_bool. rewrite negb_true_iff.
  destruct (Qle_bool b a) eqn:E; split; intro H; try congruence.
  - apply Qle_bool_iff in E. exfalso. exact (Qlt_not_le _ _ H E).
  - apply Qnot_le_lt. intro C. apply Qle_bool_iff in C. congruence.
Qed.

(** Case analysis on the first step of a monadic computation that returned. *)
Ltac break_obind H :=
  match type of H with
  | obind ?m _ = Some _ =>
      let E := fresh "E" in
      destruct m eqn:E; cbn [obind] in H; [|discriminate H]
  end.

(** ** The navigator *)

Module navigator_facts.

Import navigator.

Section Detector.

Context {inst : instantiation}.

(** *** Properties of the state's interface *)

(** C5: each of the four actor-facing setters leaves a trust level that
    is at most the one it found (order of the enumerators' values). *)
Theorem set_trust_never_raises (s : state) :
  navigation.trust_value (trust_level (set_no_trust s))
    <= navigation.trust_value (trust_level s)
  /\ navigation.trust_value (trust_level (set_fair_trust s))
    <= navigation.trust_value (trust_level s)
  /\ navigation.trust_value (trust_level (set_high_trust s))
    <= navigation.trust_value (trust_level s)
  /\ navigation.trust_value (trust_level (set_full_trust s))
    <= navigation.trust_value (trust_level s).
Proof.
  destruct s as [hb det cs nx la st dir tl vol].
  destruct tl; cbn; repeat split; lia.
Qed.

Lemma trust_eqb_eq (a b : navigation.trust_level) :
  navigation.trust_eqb a b = true <-> a = b.
Proof. destruct a, b; cbn; split; intro H; congruence. Qed.

Lemma status_eqb_eq (a b : navigation.status) :
  navigation.status_eqb a b = true <-> a = b.
Proof. destruct a, b; cbn; split; intro H; congruence. Qed.

Lemma is_on_object_iff (c : intersection_type) (cfg : navigation.config) :
  is_on_object c cfg = true
  <-> (Qabs (intersection2D.path c) < navigation.on_surface_tolerance cfg)%Q.
Proof. unfold is_on_object. apply Qlt_bool_iff. Qed.

Lemma is_on_object_beyond (c : intersection_type) (cfg : navigation.config)
    (eps : Q) :
  (0 <= eps)%Q ->
  (intersection2D.path c == navigation.on_surface_tolerance cfg + eps)%Q ->
  is_on_object c cfg = false.
Proof.
  intros Heps Hp.
  destruct (is_on_object c cfg) eqn:E; [|reflexivity].
  apply is_on_object_iff in E. exfalso.
  apply (Qlt_not_le _ _ E).
  apply Qle_trans with (intersection2D.path c); [|apply Qle_Qabs].
  rewrite Hp.
  rewrite <- (Qplus_0_r (navigation.on_surface_tolerance cfg)) at 1.
  apply Qplus_le_r. exact Heps.
Qed.

(** C6 (amended): the on-object test is strict.  A candidate is on the
    object exactly when |path| < on_surface_tolerance; a candidate whose
    path equals the tolerance, or exceeds it by any eps >= 0, is not, and
    [update_navigation_state] then reports [towards_object]. *)
Theorem on_object_test_is_strict (cfg : navigation.config) (nav : state)
    (c : intersection_type) (eps : Q) :
  next_candidate nav = Some c ->
  (0 <= eps)%Q ->
  (intersection2D.path c == navigation.on_surface_tolerance cfg + eps)%Q ->
  is_on_object c cfg = false
  /\ (forall c' : intersection_type,
        is_on_object c' cfg = true
        <-> (Qabs (intersection2D.path c') < navigation.on_surface_tolerance cfg)%Q)
  /\ exists nav', update_navigation_state cfg nav = Some nav'
                 /\ status nav' = navigation.e_towards_object
                 /\ next nav' = next nav.
Proof.
  intros Hnext Heps Hp.
  pose proof (is_on_object_beyond c cfg Heps Hp) as Hoff.
  split; [exact Hoff|]. split; [intro c'; apply is_on_object_iff|].
  unfold update_navigation_state. rewrite Hnext. cbn. rewrite Hoff. cbn.
  eexists. split; [reflexivity|]. split; reflexivity.
Qed.

(** C9: the high-trust guard of [update_kernel],
    [trust == high || (n_candidates == 1 && trust == high)], decides the
    same as [trust == high]: the kernel with the reduced guard returns the
    same result on every propagation state. *)
Theorem update_kernel_guard_redundant (propagation : propagator_state)
    (cfg : navigation.config) :
  update_kernel_simplified propagation cfg = update_kernel propagation cfg.
Proof.
  unfold update_kernel_simplified, update_kernel.
  destruct (navigation.trust_eqb (trust_level (_navigation propagation))
              navigation.e_full); [reflexivity|].
  destruct (navigation.trust_eqb (trust_level (_navigation propagation))
              navigation.e_high); cbn.
  - reflexivity.
  - rewrite andb_false_r. reflexivity.
Qed.

Lemma update_kernel_after_abort (track : track_t) (cfg : navigation.config)
    (s : state) :
  update_kernel {| _stepping := track; _navigation := fst (abort s) |} cfg
  = Some {| _stepping := track; _navigation := fst (abort s) |}.
Proof. reflexivity. Qed.

Lemma update_after_abort (track : track_t) (cfg : navigation.config)
    (s : state) :
  update {| _stepping := track; _navigation := fst (abort s) |} cfg
  = Some ({| _stepping := track; _navigation := fst (abort s) |}, false).
Proof.
  unfold update. rewrite update_kernel_after_abort. reflexivity.
Qed.

(** C10: once [abort] has run (status abort, heartbeat false, trust
    full), every later [update], for whatever track and configuration,
    returns false and leaves the navigation state as it is. *)
Theorem abort_is_inert (s : state) (steps : list (track_t * navigation.config)) :
  m_status (fst (abort s)) = navigation.e_abort
  /\ m_heartbeat (fst (abort s)) = false
  /\ snd (abort s) = false
  /\ m_trust_level (fst (abort s)) = navigation.e_full
  /\ (forall track cfg,
        update_kernel {| _stepping := track; _navigation := fst (abort s) |} cfg
        = Some {| _stepping := track; _navigation := fst (abort s) |}
        /\ update {| _stepping := track; _navigation := fst (abort s) |} cfg
           = Some ({| _stepping := track; _navigation := fst (abort s) |},
                   false))
  /\ run_updates steps (fst (abort s))
     = Some (fst (abort s), repeat false (length steps)).
Proof.
  do 4 (split; [reflexivity|]).
  split; [intros track cfg; split;
          [apply update_kernel_after_abort|apply update_after_abort]|].
  induction steps as [|[track cfg] rest IH]; [reflexivity|].
  cbn [run_updates]. rewrite update_after_abort. cbn [obind fst snd _navigation].
  rewrite IH. reflexivity.
Qed.

(** *** [update_navigation_state] *)

Lemma deref_in_range {A : Type} (l : list A) (i : Z) :
  0 <= i < Z.of_nat (length l) -> exists x, deref l i = Some x.
Proof.
  intros [Hlo Hhi]. unfold deref.
  destruct (i <? 0) eqn:E; [apply Z.ltb_lt in E; lia|].
  destruct (nth_error l (Z.to_nat i)) eqn:N; [eauto|].
  apply nth_error_None in N. lia.
Qed.

Lemma current_after_advance (nav : state) :
  current_candidate (set_next nav (next nav + 1)) = next_candidate nav.
Proof.
  unfold current_candidate, next_candidate, current, next. cbn.
  replace (m_next nav + 1 - 1) with (m_next nav) by lia. reflexivity.
Qed.

Lemma update_navigation_state_inv (cfg : navigation.config) (nav nav' : state) :
  update_navigation_state cfg nav = Some nav' ->
  m_heartbeat nav' = m_heartbeat nav
  /\ m_candidates nav' = m_candidates nav
  /\ m_last nav' = m_last nav
  /\ m_volume_index nav' = m_volume_index nav
  /\ m_detector nav' = m_detector nav
  /\ (exists c, next_candidate nav = Some c
       /\ ((is_on_object c cfg = false
            /\ m_status nav' = navigation.e_towards_object
            /\ m_next nav' = m_next nav)
           \/ (is_on_object c cfg = true
               /\ current_candidate nav' = Some c
               /\ m_next nav' = m_next nav + 1
               /\ m_status nav'
                  = if is_portal (intersection2D.sf_desc c)
                    then navigation.e_on_portal else navigation.e_on_module)))
  /\ m_trust_level nav'
     = if is_exhausted nav' || is_on_portal nav'
       then navigation.e_no_trust else navigation.e_full.
Proof.
  unfold update_navigation_state.
  destruct (next_candidate nav) as [c|] eqn:Hc; cbn [obind]; [|discriminate].
  destruct (is_on_object c cfg) eqn:Hon.
  - rewrite current_after_advance, Hc. cbn [obind].
    intro H. injection H as <-.
    do 5 (split; [reflexivity|]).
    split; [|reflexivity].
    exists c. split; [reflexivity|]. right.
    split; [exact Hon|]. split; [|split; reflexivity].
    change (current_candidate (set_next nav (next nav + 1)) = Some c).
    rewrite current_after_advance. exact Hc.
  - cbn [obind]. intro H. injection H as <-.
    do 5 (split; [reflexivity|]).
    split; [|reflexivity].
    exists c. split; [reflexivity|]. left.
    split; [exact Hon|]. split; reflexivity.
Qed.

(** C2: on a state whose [next] cursor points into the cache, at a
    candidate [c], [update_navigation_state] returns a state [nav'] that
    differs from the one it was called on in [next], status and trust level
    only: [next] has advanced by one exactly when [c] is on the object, the
    status is [on_portal] or [on_module] (by the surface of [c]) in that
    case and [towards_object] otherwise.  The trust level is [no_trust]
    exactly when, after that advance, the cache is exhausted or the status
    is [on_portal]; otherwise it is [full].  With the cursors in order,
    exhausted means [next == last]. *)
Theorem update_navigation_state_trust (cfg : navigation.config) (nav : state) :
  0 <= m_next nav < Z.of_nat (length (m_candidates nav)) ->
  exists c nav',
    next_candidate nav = Some c
    /\ update_navigation_state cfg nav = Some nav'
    /\ m_next nav'
       = (if is_on_object c cfg then m_next nav + 1 else m_next nav)
    /\ status nav'
       = (if is_on_object c cfg
          then if is_portal (intersection2D.sf_desc c)
               then navigation.e_on_portal else navigation.e_on_module
          else navigation.e_towards_object)
    /\ m_last nav' = m_last nav
    /\ m_candidates nav' = m_candidates nav
    /\ m_heartbeat nav' = m_heartbeat nav
    /\ m_volume_index nav' = m_volume_index nav
    /\ m_detector nav' = m_detector nav
    /\ trust_level nav'
       = (if (m_last nav
              - (if is_on_object c cfg then m_next nav + 1 else m_next nav)
              <=? 0)
             || (is_on_object c cfg && is_portal (intersection2D.sf_desc c))
          then navigation.e_no_trust else navigation.e_full)
    /\ (trust_level nav' = navigation.e_no_trust
        <-> is_exhausted nav' = true \/ status nav' = navigation.e_on_portal)
    /\ (trust_level nav' <> navigation.e_no_trust
        -> trust_level nav' = navigation.e_full)
    /\ (m_next nav' <= m_last nav'
        -> (is_exhausted nav' = true <-> m_next nav' = m_last nav')).
Proof.
  intro Hrange.
  destruct (deref_in_range (m_candidates nav) Hrange) as [c Hc].
  change (next_candidate nav = Some c) in Hc.
  exists c.
  destruct (update_navigation_state cfg nav) as [nav'|] eqn:Hrun.
  - exists nav'. split; [exact Hc|]. split; [reflexivity|].
    destruct (update_navigation_state_inv _ _ Hrun)
      as (Hhb & Hcs & Hla & Hvol & Hdet & (c' & Hc' & Hcase) & Htrust).
    rewrite Hc in Hc'. injection Hc' as <-.
    assert (m_next nav'
            = (if is_on_object c cfg then m_next nav + 1 else m_next nav)
            /\ m_status nav'
               = (if is_on_object c cfg
                  then if is_portal (intersection2D.sf_desc c)
                       then navigation.e_on_portal else navigation.e_on_module
                  else navigation.e_towards_object)) as [Hn Hst].
    { destruct Hcase as [(Hoff & Hst & Hn)|(Hon & _ & Hn & Hst)].
      - rewrite Hoff. split; assumption.
      - rewrite Hon. split; assumption. }
    split; [exact Hn|]. split; [exact Hst|].
    do 5 (split; [assumption|]).
    split.
    { unfold trust_level. rewrite Htrust.
      unfold is_exhausted, is_on_portal. rewrite Hla, Hn, Hst.
      destruct (is_on_object c cfg);
        destruct (is_portal (intersection2D.sf_desc c)); reflexivity. }
    unfold trust_level, status. rewrite Htrust.
    unfold is_on_portal. rewrite <- status_eqb_eq.
    split; [|split].
    + destruct (is_exhausted nav');
        destruct (navigation.status_eqb (m_status nav') navigation.e_on_portal);
        cbn; intuition congruence.
    + destruct (is_exhausted nav' || _); congruence.
    + intro Hord. unfold is_exhausted. rewrite Z.leb_le. lia.
  - exfalso. unfold update_navigation_state in Hrun.
    rewrite Hc in Hrun. cbn [obind] in Hrun.
    destruct (is_on_object c cfg).
    + rewrite current_after_advance in Hrun.
      rewrite Hc in Hrun. discriminate.
    + discriminate.
Qed.

(** *** What a navigator call leaves behind *)

Lemma update_navigation_state_refreshed (cfg : navigation.config)
    (nav nav' : state) :
  update_navigation_state cfg nav = Some nav' -> refreshed nav'.
Proof.
  intro H.
  destruct (update_navigation_state_inv _ _ H)
    as (_ & _ & _ & _ & _ & (c & _ & Hcase) & Htrust).
  unfold refreshed. rewrite Htrust. unfold is_on_portal.
  destruct Hcase as [(_ & Hst & _)|(_ & Hcur & _ & Hst)]; rewrite Hst.
  - split; [auto|]. split; [discriminate|].
    destruct (is_exhausted nav'); cbn; split; auto; intro; try discriminate.
    split; [reflexivity|discriminate].
  - destruct (is_portal (intersection2D.sf_desc c)).
    + split; [auto|]. split; [eauto|].
      rewrite orb_true_r. split; [auto|discriminate].
    + split; [auto|]. split; [discriminate|].
      destruct (is_exhausted nav'); cbn; split; auto; intro; try discriminate.
      split; [reflexivity|discriminate].
Qed.

Lemma init_inv (p : propagator_state) (cfg : navigation.config)
    (r : propagator_state * bool) :
  init p cfg = Some r ->
  snd r = m_heartbeat (_navigation (fst r))
  /\ _stepping (fst r) = _stepping p
  /\ m_volume_index (_navigation (fst r)) = m_volume_index (_navigation p)
  /\ refreshed (_navigation (fst r))
  /\ (m_heartbeat (_navigation (fst r)) = true
      <-> m_trust_level (_navigation (fst r)) = navigation.e_full).
Proof.
  unfold init. intro H. break_obind H. injection H as <-. cbn [fst snd].
  pose proof (update_navigation_state_refreshed _ _ E) as R.
  destruct (update_navigation_state_inv _ _ E) as (Hhb & _ & _ & Hvol & _).
  cbn in Hhb, Hvol. unfold trust_level.
  destruct (navigation.trust_eqb (m_trust_level s) navigation.e_full) eqn:T;
    cbn [negb with_navigation _navigation _stepping].
  - apply trust_eqb_eq in T.
    split; [reflexivity|]. split; [reflexivity|]. split; [exact Hvol|].
    split; [exact R|]. split; intro; assumption.
  - assert (m_trust_level s <> navigation.e_full) as T'
        by (intro C; apply trust_eqb_eq in C; congruence).
    split; [reflexivity|]. split; [reflexivity|]. split; [exact Hvol|].
    split; [exact R|]. cbn. split; intro C; [discriminate|contradiction].
Qed.

(** [init] reads the first element of the sorted cache: it is defined
    exactly when the sorted neighbourhood is not empty. *)
Lemma init_defined_iff (p : propagator_state) (cfg : navigation.config) :
  init p cfg = None
  <-> sequential_sort
        (visit_neighborhood (m_detector (_navigation p))
           (volume (_navigation p)) (_stepping p) cfg) = [].
Proof.
  unfold init, update_navigation_state, next_candidate, next, deref.
  cbn [set_last set_next with_candidates with_heartbeat clear m_candidates
       m_next m_last].
  destruct (sequential_sort _) as [|c l]; cbn.
  - split; reflexivity.
  - split; [|discriminate].
    destruct (is_on_object c cfg); cbn; discriminate.
Qed.

Lemma heartbeat_and_init_inv (p p' : propagator_state) (cfg : navigation.config) :
  heartbeat_and_init p cfg = Some p' ->
  _stepping p' = _stepping p
  /\ m_volume_index (_navigation p') = m_volume_index (_navigation p)
  /\ refreshed (_navigation p')
  /\ (m_heartbeat (_navigation p') = true
      <-> m_trust_level (_navigation p') = navigation.e_full).
Proof.
  unfold heartbeat_and_init. intro H. break_obind H. injection H as <-.
  destruct (init_inv _ _ E) as (Hsnd & Hst & Hvol & R & Hhb).
  cbn. split; [exact Hst|]. split; [exact Hvol|]. split; [exact R|].
  rewrite Hsnd, andb_diag. exact Hhb.
Qed.

Lemma update_candidate_at_inv (nav : state) (it : Z) (track : track_t)
    (cfg : navigation.config) (r : state * bool) :
  update_candidate_at nav it track cfg = Some r ->
  exists l, fst r = with_candidates nav l.
Proof.
  unfold update_candidate_at. intro H. break_obind H. break_obind H.
  injection H as <-. cbn. eauto.
Qed.

Lemma high_trust_update_inv (p : propagator_state) (cfg : navigation.config)
    (r : propagator_state + propagator_state) :
  high_trust_update p cfg = Some r ->
  match r with
  | inl p1 => kernel_post (m_heartbeat (_navigation p)) (_navigation p1)
  | inr p' =>
      m_trust_level (_navigation p') = navigation.e_fair
      /\ m_heartbeat (_navigation p') = m_heartbeat (_navigation p)
  end.
Proof.
  unfold high_trust_update. intro H. break_obind H.
  destruct (update_candidate_at_inv _ _ _ _ E) as [l1 Hl1].
  destruct (negb (snd p0)).
  { injection H as <-. rewrite Hl1. split; [right; split; reflexivity|].
    cbn. discriminate. }
  break_obind H.
  pose proof (update_navigation_state_refreshed _ _ E0) as R.
  destruct (update_navigation_state_inv _ _ E0) as (Hhb & _).
  rewrite Hl1 in Hhb. cbn in Hhb.
  destruct (navigation.status_eqb (status s) navigation.e_towards_object
            || navigation.trust_eqb (trust_level s) navigation.e_no_trust) eqn:G.
  { injection H as <-. split; [left; exact R|]. cbn. intros _ Hb. congruence. }
  apply orb_false_iff in G. destruct G as [_ G].
  assert (m_trust_level s = navigation.e_full) as Hfull.
  { destruct R as (_ & _ & [T|T] & _); [exact T|].
    unfold trust_level in G. rewrite T in G. discriminate. }
  break_obind H.
  destruct (update_candidate_at_inv _ _ _ _ E1) as [l3 Hl3].
  destruct (snd p1); injection H as <-; rewrite Hl3; cbn.
  - destruct R as (R1 & R2 & R3 & R4). destruct (R4 Hfull) as [Hex Hnp].
    split; [left|cbn; intros _ Hb; congruence].
    unfold refreshed. cbn. repeat split; auto.
    intro C. contradiction.
  - rewrite Hfull. cbn. split; [reflexivity|exact Hhb].
Qed.

Lemma fair_trust_update_inv (p p1 : propagator_state) (cfg : navigation.config) :
  fair_trust_update p cfg = Some p1 ->
  refreshed (_navigation p1)
  /\ m_heartbeat (_navigation p1) = m_heartbeat (_navigation p).
Proof.
  unfold fair_trust_update. intro H.
  destruct ((0 <=? m_next (_navigation p))
            && (m_next (_navigation p) <=? m_last (_navigation p))
            && (m_last (_navigation p)
                <=? Z.of_nat (length (m_candidates (_navigation p)))));
    [|discriminate].
  break_obind H. injection H as <-. cbn.
  split; [exact (update_navigation_state_refreshed _ _ E)|].
  destruct (update_navigation_state_inv _ _ E) as (Hhb & _). exact Hhb.
Qed.

Lemma update_kernel_tail_inv (p p1 : propagator_state) (cfg : navigation.config) :
  update_kernel_tail p cfg = Some p1 ->
  m_trust_level (_navigation p) = navigation.e_fair
  \/ m_trust_level (_navigation p) = navigation.e_no_trust ->
  kernel_post (m_heartbeat (_navigation p)) (_navigation p1).
Proof.
  unfold update_kernel_tail, trust_level. intros H [T|T]; rewrite T in H; cbn in H.
  - destruct (fair_trust_update_inv _ _ H) as [R Hhb].
    split; [left; exact R|]. intros _ Hb. congruence.
  - destruct (heartbeat_and_init_inv _ _ H) as (_ & _ & R & Hhb).
    split; [left; exact R|]. intros Hf _. apply Hhb. exact Hf.
Qed.

Lemma update_kernel_inv (p p1 : propagator_state) (cfg : navigation.config) :
  update_kernel p cfg = Some p1 ->
  m_trust_level (_navigation p) <> navigation.e_full ->
  kernel_post (m_heartbeat (_navigation p)) (_navigation p1).
Proof.
  unfold update_kernel, trust_level. intros H Hnf.
  destruct (m_trust_level (_navigation p)) eqn:T; cbn in H;
    rewrite ?andb_false_r in H; cbn in H; try contradiction.
  - apply update_kernel_tail_inv with (cfg := cfg); auto.
  - apply update_kernel_tail_inv with (cfg := cfg); auto.
  - break_obind H. pose proof (high_trust_update_inv _ _ E) as P.
    destruct s as [done|continued].
    + injection H as <-. exact P.
    + destruct P as [Tc Hhb]. rewrite <- Hhb.
      apply update_kernel_tail_inv with (cfg := cfg); auto.
Qed.

(** *** [update]: portal switch, heartbeat and trust *)

Lemma update_kernel_current_on_portal (p p1 : propagator_state)
    (cfg : navigation.config) :
  update_kernel p cfg = Some p1 ->
  status (_navigation p1) = navigation.e_on_portal ->
  trust_level (_navigation p1) <> navigation.e_full ->
  exists cur, current_candidate (_navigation p1) = Some cur.
Proof.
  intros Hk Hst Htr.
  assert (m_trust_level (_navigation p) <> navigation.e_full) as Hpre.
  { intro C. unfold update_kernel, trust_level in Hk. rewrite C in Hk.
    cbn in Hk. injection Hk as <-. contradiction. }
  destruct (update_kernel_inv _ _ Hk Hpre) as [[R|[U _]] _].
  - destruct R as (_ & R2 & _). exact (R2 Hst).
  - unfold status in Hst. congruence.
Qed.

(** C1: when [update_kernel] leaves status [on_portal] without full
    trust, [update] sets the volume index to the volume link of the
    current candidate.  If that link is the invalid value, [update] runs
    [exit]: status [on_target], heartbeat false, empty cache,
    [is_complete] true, and false is returned.  Otherwise it runs [init]
    in the new volume and then forces trust [full] and heartbeat true. *)
Theorem update_on_portal (p p1 : propagator_state) (cfg : navigation.config) :
  update_kernel p cfg = Some p1 ->
  status (_navigation p1) = navigation.e_on_portal ->
  trust_level (_navigation p1) <> navigation.e_full ->
  exists cur,
    current_candidate (_navigation p1) = Some cur
    /\ let link := intersection2D.volume_link cur in
       let nav1 := set_volume (_navigation p1) link in
       volume nav1 = link
       /\ (is_invalid_value link = true ->
           update p cfg = Some (with_navigation p1 (fst (exit nav1)), false)
           /\ volume (fst (exit nav1)) = link
           /\ status (fst (exit nav1)) = navigation.e_on_target
           /\ m_heartbeat (fst (exit nav1)) = false
           /\ m_candidates (fst (exit nav1)) = []
           /\ is_complete (fst (exit nav1)) = true)
       /\ (is_invalid_value link = false ->
           forall r, init (with_navigation p1 nav1) cfg = Some r ->
           exists p', update p cfg = Some (p', true)
             /\ p' = with_navigation (fst r)
                       (with_heartbeat
                          (with_trust_level (_navigation (fst r))
                             navigation.e_full) true)
             /\ volume (_navigation p') = link
             /\ trust_level (_navigation p') = navigation.e_full
             /\ m_heartbeat (_navigation p') = true).
Proof.
  intros Hk Hst Htr.
  destruct (update_kernel_current_on_portal _ _ Hk Hst Htr) as [cur Hcur].
  exists cur. split; [exact Hcur|]. cbn zeta.
  assert (navigation.trust_eqb (trust_level (_navigation p1)) navigation.e_full
          = false) as Hne.
  { destruct (navigation.trust_eqb _ _) eqn:E; [|reflexivity].
    apply trust_eqb_eq in E. contradiction. }
  assert (is_on_portal (_navigation p1) = true) as Hop
      by (apply status_eqb_eq; exact Hst).
  split; [reflexivity|]. split.
  - intro Hinv. split; [|repeat split].
    unfold update. rewrite Hk. cbn [obind]. rewrite Hne, Hop, Hcur.
    cbn [obind]. unfold volume at 1. cbn [set_volume m_volume_index].
    rewrite Hinv. reflexivity.
  - intros Hval r Hinit. eexists. split; [|split; [reflexivity|]].
    + unfold update. rewrite Hk. cbn [obind]. rewrite Hne, Hop, Hcur.
      cbn [obind]. unfold volume at 1. cbn [set_volume m_volume_index].
      rewrite Hval, Hinit. reflexivity.
    + destruct (init_inv _ _ Hinit) as (_ & _ & Hvol & _).
      cbn in Hvol |- *. unfold volume. cbn. split; [exact Hvol|].
      split; reflexivity.
Qed.

Lemma update_leaves_full_trust (p : propagator_state) (cfg : navigation.config)
    (r : propagator_state * bool) :
  update p cfg = Some r ->
  trust_level (_navigation (fst r)) = navigation.e_full.
Proof.
  unfold update. intro H. break_obind H.
  destruct (navigation.trust_eqb (trust_level (_navigation p0)) navigation.e_full)
    eqn:T.
  { injection H as <-. apply trust_eqb_eq. exact T. }
  destruct (is_on_portal (_navigation p0)).
  - break_obind H.
    destruct (is_invalid_value _).
    + injection H as <-. reflexivity.
    + break_obind H. injection H as <-. reflexivity.
  - break_obind H.
    destruct (navigation.trust_eqb (trust_level (_navigation p1)) navigation.e_full)
      eqn:T1; cbn [negb orb] in H.
    + destruct (is_exhausted (_navigation p1)); injection H as <-.
      * reflexivity.
      * apply trust_eqb_eq. exact T1.
    + injection H as <-. reflexivity.
Qed.

(** C3 (amended): [abort] and [exit] both write trust [full]; every
    [update] that returns leaves trust [full]; [update_navigation_state]
    leaves [full] exactly when the cache is not exhausted and the status is
    not [on_portal], and [init] returns a live heartbeat exactly when it
    left [full]; the four setters never turn a lower level into [full]. *)
Theorem full_trust_writers (s : state) (cfg : navigation.config) :
  trust_level (fst (abort s)) = navigation.e_full
  /\ trust_level (fst (exit s)) = navigation.e_full
  /\ (forall p r, update p cfg = Some r ->
        trust_level (_navigation (fst r)) = navigation.e_full)
  /\ (forall s', update_navigation_state cfg s = Some s' ->
        (trust_level s' = navigation.e_full
         <-> is_exhausted s' = false /\ status s' <> navigation.e_on_portal))
  /\ (forall p r, init p cfg = Some r ->
        (snd r = true
         <-> trust_level (_navigation (fst r)) = navigation.e_full))
  /\ (forall f, In f [set_no_trust; set_fair_trust; set_high_trust; set_full_trust] ->
        trust_level (f s) = navigation.e_full ->
        trust_level s = navigation.e_full).
Proof.
  split; [reflexivity|]. split; [reflexivity|].
  split; [intros p r; apply update_leaves_full_trust|].
  split; [|split].
  - intros s' H.
    destruct (update_navigation_state_inv _ _ H) as (_ & _ & _ & _ & _ & _ & T).
    unfold trust_level, status. rewrite T. unfold is_on_portal.
    rewrite <- status_eqb_eq.
    destruct (is_exhausted s');
      destruct (navigation.status_eqb (m_status s') navigation.e_on_portal);
      cbn; split; try discriminate; try tauto; try (intros [? ?]; congruence).
    intros _. split; [reflexivity|discriminate].
  - intros p r H. destruct (init_inv _ _ H) as (Hs & _ & _ & _ & Hb).
    rewrite Hs. exact Hb.
  - intros f Hf. cbn in Hf.
    destruct s as [hb det cs nx la st dir tl vol].
    destruct Hf as [<-|[<-|[<-|[<-|[]]]]]; destruct tl; cbn; congruence.
Qed.

Lemma update_kernel_full_trust (p : propagator_state) (cfg : navigation.config) :
  m_trust_level (_navigation p) = navigation.e_full ->
  update_kernel p cfg = Some p
  /\ update p cfg = Some (p, m_heartbeat (_navigation p)).
Proof.
  intro T. unfold update, update_kernel, trust_level. rewrite T. cbn.
  unfold trust_level. rewrite T. split; reflexivity.
Qed.



(** *** Further properties of the state's interface *)

(** [set_full_trust] changes nothing; the capped setters are idempotent,
    commute, and the lower cap wins; [set_no_trust] absorbs the others. *)
Theorem trust_setters_compose (s : state) :
  set_full_trust s = s
  /\ set_high_trust (set_high_trust s) = set_high_trust s
  /\ set_fair_trust (set_fair_trust s) = set_fair_trust s
  /\ set_fair_trust (set_high_trust s) = set_fair_trust s
  /\ set_high_trust (set_fair_trust s) = set_fair_trust s
  /\ set_no_trust (set_high_trust s) = set_no_trust s
  /\ set_high_trust (set_no_trust s) = set_no_trust s
  /\ set_no_trust (set_fair_trust s) = set_no_trust s
  /\ set_fair_trust (set_no_trust s) = set_no_trust s.
Proof.
  destruct s as [hb det cs nx la st dir tl vol].
  destruct tl; repeat split.
Qed.

(** Once [exit] has run, the navigation is complete and stays so: every
    later [update] returns false and leaves the state, with its empty
    cache, as it is. *)
Theorem exit_is_inert (s : state) (steps : list (track_t * navigation.config)) :
  is_complete (fst (exit s)) = true
  /\ snd (exit s) = false
  /\ m_candidates (fst (exit s)) = []
  /\ is_exhausted (fst (exit s)) = true
  /\ run_updates steps (fst (exit s))
     = Some (fst (exit s), repeat false (length steps)).
Proof.
  do 4 (split; [reflexivity|]).
  induction steps as [|[track cfg] rest IH]; [reflexivity|].
  cbn [run_updates].
  destruct (update_kernel_full_trust
              {| _stepping := track; _navigation := fst (exit s) |} cfg eq_refl)
    as [_ Hu].
  rewrite Hu. cbn [obind fst snd _navigation]. rewrite IH. reflexivity.
Qed.

Lemma update_returns_stored_heartbeat (p : propagator_state)
    (cfg : navigation.config) (r : propagator_state * bool) :
  update p cfg = Some r -> snd r = m_heartbeat (_navigation (fst r)).
Proof.
  unfold update. intro H. break_obind H.
  destruct (navigation.trust_eqb (trust_level (_navigation p0)) navigation.e_full).
  { injection H as <-. reflexivity. }
  destruct (is_on_portal (_navigation p0)).
  - break_obind H. destruct (is_invalid_value _).
    + injection H as <-. reflexivity.
    + break_obind H. injection H as <-. reflexivity.
  - break_obind H. injection H as <-. reflexivity.
Qed.

(** [update] is idempotent: whatever it did, it returns the heartbeat it
    stored, and an [update] that follows it, for any track and
    configuration, changes nothing and returns that heartbeat again. *)
Theorem update_is_idempotent (p : propagator_state) (cfg : navigation.config)
    (r : propagator_state * bool) :
  update p cfg = Some r ->
  snd r = m_heartbeat (_navigation (fst r))
  /\ forall (track : track_t) (cfg' : navigation.config),
       update {| _stepping := track; _navigation := _navigation (fst r) |} cfg'
       = Some ({| _stepping := track; _navigation := _navigation (fst r) |},
               snd r).
Proof.
  intro H. pose proof (update_returns_stored_heartbeat _ _ H) as Hhb.
  split; [exact Hhb|]. intros track cfg'.
  pose proof (update_leaves_full_trust _ _ H) as T.
  destruct (update_kernel_full_trust
              {| _stepping := track; _navigation := _navigation (fst r) |}
              cfg' T) as [_ Hu].
  rewrite Hu, Hhb. reflexivity.
Qed.

(** *** What the navigator leaves alone *)

Lemma frame_preserved_refl (p : propagator_state) : frame_preserved p p.
Proof. repeat split. Qed.

Lemma frame_preserved_trans (p q r : propagator_state) :
  frame_preserved p q -> frame_preserved q r -> frame_preserved p r.
Proof.
  intros (A1 & A2 & A3 & A4) (B1 & B2 & B3 & B4).
  repeat split; congruence.
Qed.

Lemma update_navigation_state_direction (cfg : navigation.config)
    (nav nav' : state) :
  update_navigation_state cfg nav = Some nav' ->
  m_direction nav' = m_direction nav.
Proof.
  unfold update_navigation_state. intro H. break_obind H.
  destruct (is_on_object i cfg); cbn [obind] in H.
  - destruct (current_candidate _); cbn [obind] in H; [|discriminate].
    injection H as <-. reflexivity.
  - injection H as <-. reflexivity.
Qed.

Lemma update_navigation_state_frame (p : propagator_state)
    (cfg : navigation.config) (nav nav' : state) :
  update_navigation_state cfg nav = Some nav' ->
  frame_preserved p (with_navigation p nav) ->
  frame_preserved p (with_navigation p nav').
Proof.
  intros H (F1 & F2 & F3 & F4).
  destruct (update_navigation_state_inv _ _ H) as (_ & _ & _ & Hv & Hd & _).
  pose proof (update_navigation_state_direction _ _ H) as Hdir.
  cbn in F2, F3, F4. repeat split; cbn; congruence.
Qed.

Lemma init_frame (p : propagator_state) (cfg : navigation.config)
    (r : propagator_state * bool) :
  init p cfg = Some r -> frame_preserved p (fst r).
Proof.
  unfold init. intro H. break_obind H. injection H as <-. cbn [fst].
  assert (frame_preserved p (with_navigation p s)) as F.
  { eapply update_navigation_state_frame; [exact E|]. repeat split. }
  destruct F as (F1 & F2 & F3 & F4).
  destruct (negb _); repeat split; assumption.
Qed.

Lemma heartbeat_and_init_frame (p p' : propagator_state)
    (cfg : navigation.config) :
  heartbeat_and_init p cfg = Some p' -> frame_preserved p p'.
Proof.
  unfold heartbeat_and_init. intro H. break_obind H. injection H as <-.
  destruct (init_frame _ _ E) as (F1 & F2 & F3 & F4).
  repeat split; assumption.
Qed.

Lemma high_trust_update_frame (p : propagator_state) (cfg : navigation.config)
    (r : propagator_state + propagator_state) :
  high_trust_update p cfg = Some r ->
  frame_preserved p (match r with inl q => q | inr q => q end).
Proof.
  unfold high_trust_update. intro H. break_obind H.
  destruct (update_candidate_at_inv _ _ _ _ E) as [l1 Hl1].
  destruct (negb (snd p0)).
  { injection H as <-. rewrite Hl1. repeat split. }
  break_obind H.
  assert (frame_preserved p (with_navigation p s)) as F.
  { eapply update_navigation_state_frame; [exact E0|].
    rewrite Hl1. repeat split. }
  destruct (_ || _).
  { injection H as <-. exact F. }
  break_obind H.
  destruct (update_candidate_at_inv _ _ _ _ E1) as [l3 Hl3].
  destruct F as (F1 & F2 & F3 & F4).
  destruct (snd p1); injection H as <-; rewrite Hl3; repeat split; assumption.
Qed.

Lemma fair_trust_update_frame (p p1 : propagator_state)
    (cfg : navigation.config) :
  fair_trust_update p cfg = Some p1 -> frame_preserved p p1.
Proof.
  unfold fair_trust_update. intro H.
  destruct (_ && _); [|discriminate].
  break_obind H. injection H as <-.
  eapply update_navigation_state_frame; [exact E|]. repeat split.
Qed.

Lemma update_kernel_tail_frame (p p1 : propagator_state)
    (cfg : navigation.config) :
  update_kernel_tail p cfg = Some p1 -> frame_preserved p p1.
Proof.
  unfold update_kernel_tail. intro H.
  destruct (navigation.trust_eqb _ navigation.e_fair).
  { exact (fair_trust_update_frame _ _ H). }
  destruct (navigation.trust_eqb _ navigation.e_no_trust).
  { exact (heartbeat_and_init_frame _ _ H). }
  injection H as <-. apply frame_preserved_refl.
Qed.

Lemma update_kernel_frame (p p1 : propagator_state) (cfg : navigation.config) :
  update_kernel p cfg = Some p1 -> frame_preserved p p1.
Proof.
  unfold update_kernel. intro H.
  destruct (navigation.trust_eqb _ navigation.e_full).
  { injection H as <-. apply frame_preserved_refl. }
  break_obind H. destruct s as [done|continued].
  - injection H as <-.
    destruct (_ || _); [|discriminate].
    exact (high_trust_update_frame _ _ E).
  - apply frame_preserved_trans with continued.
    + destruct (_ || _).
      * exact (high_trust_update_frame _ _ E).
      * injection E as <-. apply frame_preserved_refl.
    + exact (update_kernel_tail_frame _ _ H).
Qed.

(** [init] and [update] never change the stepper's track, the detector
    or the navigation direction; [init] and [update_kernel] never change
    the volume either. *)
Theorem navigator_keeps_track_detector_direction (p : propagator_state)
    (cfg : navigation.config) :
  (forall r, init p cfg = Some r -> frame_preserved p (fst r))
  /\ (forall p1, update_kernel p cfg = Some p1 -> frame_preserved p p1)
  /\ (forall r, update p cfg = Some r ->
        _stepping (fst r) = _stepping p
        /\ m_detector (_navigation (fst r)) = m_detector (_navigation p)
        /\ direction (_navigation (fst r)) = direction (_navigation p)).
Proof.
  split; [intros r; apply init_frame|].
  split; [intros p1; apply update_kernel_frame|].
  intros r H. unfold update in H. break_obind H.
  destruct (update_kernel_frame _ _ E) as (K1 & K2 & K3 & K4).
  destruct (navigation.trust_eqb _ navigation.e_full).
  { injection H as <-. repeat split; assumption. }
  destruct (is_on_portal (_navigation p0)).
  - break_obind H. destruct (is_invalid_value _).
    + injection H as <-. repeat split; assumption.
    + break_obind H. injection H as <-.
      destruct (init_frame _ _ E1) as (I1 & I2 & I3 & I4).
      cbn in I1, I2, I3. unfold direction. cbn.
      repeat split; congruence.
  - break_obind H. injection H as <-.
    destruct (heartbeat_and_init_frame _ _ E0) as (I1 & I2 & I3 & I4).
    unfold direction.
    destruct (_ || _); cbn; repeat split; congruence.
Qed.


(** *** The cache under [init] and the trust-level updates *)

(** [update_navigation_state] writes only [next], the status and the trust
    level: heartbeat, cache, [last], volume, detector and direction stay,
    and [next] moves by one exactly when the next candidate is on the
    object, which then is the current candidate. *)
Theorem update_navigation_state_writes (cfg : navigation.config)
    (nav nav' : state) :
  update_navigation_state cfg nav = Some nav' ->
  m_heartbeat nav' = m_heartbeat nav
  /\ m_candidates nav' = m_candidates nav
  /\ m_last nav' = m_last nav
  /\ m_volume_index nav' = m_volume_index nav
  /\ m_detector nav' = m_detector nav
  /\ m_direction nav' = m_direction nav
  /\ exists c, next_candidate nav = Some c
       /\ (if is_on_object c cfg
           then m_next nav' = m_next nav + 1
                /\ current_candidate nav' = Some c
                /\ m_status nav' <> navigation.e_towards_object
           else m_next nav' = m_next nav
                /\ m_status nav' = navigation.e_towards_object).
Proof.
  intro H.
  destruct (update_navigation_state_inv _ _ H)
    as (H1 & H2 & H3 & H4 & H5 & (c & Hc & Hcase) & _).
  do 5 (split; [assumption|]).
  split; [exact (update_navigation_state_direction _ _ H)|].
  exists c. split; [exact Hc|].
  destruct Hcase as [(Hoff & Hst & Hn)|(Hon & Hcur & Hn & Hst)].
  - rewrite Hoff. split; assumption.
  - rewrite Hon. split; [exact Hn|]. split; [exact Hcur|].
    rewrite Hst. destruct (is_portal _); discriminate.
Qed.

(** What [init] leaves when it returns: the sorted neighbourhood as cache,
    [last] at its end, [next] at its first element or one past it; the
    heartbeat is true exactly when the cache is not exhausted and the track
    is not on a portal, and the trust level is then [full], else
    [no_trust]. *)
Theorem init_postcondition (p : propagator_state) (cfg : navigation.config)
    (r : propagator_state * bool) :
  init p cfg = Some r ->
  let nav := _navigation (fst r) in
  m_candidates nav
  = sequential_sort
      (visit_neighborhood (m_detector (_navigation p))
         (volume (_navigation p)) (_stepping p) cfg)
  /\ m_last nav = Z.of_nat (length (m_candidates nav))
  /\ (m_next nav = 0 /\ status nav = navigation.e_towards_object
      \/ m_next nav = 1
         /\ (status nav = navigation.e_on_module
             \/ status nav = navigation.e_on_portal))
  /\ (snd r = true
      <-> is_exhausted nav = false /\ status nav <> navigation.e_on_portal)
  /\ trust_level nav
     = (if snd r then navigation.e_full else navigation.e_no_trust).
Proof.
  intro H. cbv zeta.
  destruct (init_inv _ _ H) as (Hs & _ & _ & R & Hb).
  unfold init in H. break_obind H. injection H as <-.
  destruct (update_navigation_state_inv _ _ E)
    as (_ & Hc & Hl & _ & _ & (c & _ & Hcase) & Ht).
  cbn in Hc, Hl, Hcase.
  assert (m_next s = 0 /\ m_status s = navigation.e_towards_object
          \/ m_next s = 1
             /\ (m_status s = navigation.e_on_module
                 \/ m_status s = navigation.e_on_portal)) as Hpos.
  { destruct Hcase as [(_ & Hst & Hn)|(_ & _ & Hn & Hst)].
    - left. split; assumption.
    - right. split; [exact Hn|]. rewrite Hst. destruct (is_portal _); auto. }
  assert (m_heartbeat s = true) as Hlive.
  { destruct (update_navigation_state_inv _ _ E) as (Hh & _). exact Hh. }
  unfold status, trust_level, refreshed in *. cbn [fst snd] in *.
  destruct (navigation.trust_eqb (m_trust_level s) navigation.e_full) eqn:T;
    cbn [negb with_navigation _navigation with_heartbeat m_candidates m_last
         m_next m_status m_trust_level m_heartbeat is_exhausted] in *.
  - apply trust_eqb_eq in T.
    split; [exact Hc|]. split; [rewrite Hl, Hc; reflexivity|].
    split; [exact Hpos|]. rewrite Hlive.
    destruct R as (_ & _ & _ & R4). destruct (R4 T) as [Hex Hnp].
    split; [split; auto|exact T].
  - assert (m_trust_level s = navigation.e_no_trust) as N.
    { destruct R as (_ & _ & [F|N] & _); [|exact N].
      rewrite F in T. discriminate. }
    split; [exact Hc|]. split; [rewrite Hl, Hc; reflexivity|].
    split; [exact Hpos|]. split; [|exact N].
    split; [discriminate|]. intros [Hex Hnp]. exfalso.
    change (is_exhausted (with_heartbeat s false)) with (is_exhausted s) in Hex.
    rewrite Ht, Hex in N. unfold is_on_portal in N.
    destruct (navigation.status_eqb (m_status s) navigation.e_on_portal) eqn:P;
      [|discriminate].
    apply status_eqb_eq in P. contradiction.
Qed.

(** [update_kernel] resolves the trust level: it never leaves [fair] or
    [high].  When it had work to do (trust not [full] on entry) the status
    it leaves is not terminal, and full trust comes with a cache that is
    not exhausted and a track that is not on a portal. *)
Theorem update_kernel_resolves_trust (p p1 : propagator_state)
    (cfg : navigation.config) :
  update_kernel p cfg = Some p1 ->
  (trust_level (_navigation p1) = navigation.e_full
   \/ trust_level (_navigation p1) = navigation.e_no_trust)
  /\ (trust_level (_navigation p) <> navigation.e_full ->
      ~ terminal (status (_navigation p1))
      /\ (trust_level (_navigation p1) = navigation.e_full ->
          is_exhausted (_navigation p1) = false
          /\ (status (_navigation p1) = navigation.e_towards_object
              \/ status (_navigation p1) = navigation.e_on_module))).
Proof.
  intro H.
  destruct (navigation.trust_eqb (trust_level (_navigation p)) navigation.e_full)
    eqn:T.
  - apply trust_eqb_eq in T.
    destruct (update_kernel_full_trust p cfg T) as [Hk _].
    rewrite Hk in H. injection H as <-.
    split; [left; exact T|]. intro C. contradiction.
  - assert (m_trust_level (_navigation p) <> navigation.e_full) as Hpre
        by (intro C; apply trust_eqb_eq in C; unfold trust_level in T; congruence).
    destruct (update_kernel_inv _ _ H Hpre) as [[R|[U N]] _];
      unfold trust_level, status.
    + destruct R as (R1 & _ & R3 & R4). split; [exact R3|]. intros _.
      split.
      * intros [C|C]; rewrite C in R1; destruct R1 as [?|[?|?]]; discriminate.
      * intro F. destruct (R4 F) as [Hex Hnp]. split; [exact Hex|].
        destruct R1 as [?|[?|?]]; auto. contradiction.
    + split; [right; exact N|]. intros _. split.
      * intros [C|C]; congruence.
      * intro F. congruence.
Qed.

Lemma find_if_spec {A : Type} (pred : A -> bool) (l : list A) :
  0 <= find_if pred l <= Z.of_nat (length l)
  /\ (forall i x, 0 <= i < find_if pred l -> deref l i = Some x ->
        pred x = false)
  /\ (find_if pred l < Z.of_nat (length l) ->
      exists x, deref l (find_if pred l) = Some x /\ pred x = true).
Proof.
  induction l as [|a l IH].
  - cbn. split; [lia|]. split; [intros; lia|intros; lia].
  - cbn [find_if length]. destruct (pred a) eqn:Pa.
    + split; [lia|]. split; [intros; lia|].
      intros _. exists a. split; [reflexivity|exact Pa].
    + destruct IH as (B & Hbefore & Hat).
      split; [lia|]. split.
      * intros i x Hi Hx. unfold deref in Hx.
        destruct (i <? 0) eqn:Neg; [discriminate|].
        destruct (Z.to_nat i) as [|n] eqn:Hn.
        -- cbn in Hx. congruence.
        -- cbn in Hx. apply (Hbefore (i - 1) x); [lia|].
           unfold deref.
           destruct (i - 1 <? 0) eqn:Neg'; [apply Z.ltb_lt in Neg'; lia|].
           replace (Z.to_nat (i - 1)) with n by lia. exact Hx.
      * intro Hlt. destruct Hat as (x & Hx & Px); [lia|].
        exists x. split; [|exact Px].
        unfold deref in Hx |- *.
        destruct (find_if pred l <? 0) eqn:Neg;
          [apply Z.ltb_lt in Neg; lia|].
        destruct (1 + find_if pred l <? 0) eqn:Neg';
          [apply Z.ltb_lt in Neg'; lia|].
        replace (Z.to_nat (1 + find_if pred l))
          with (S (Z.to_nat (find_if pred l))) by lia.
        exact Hx.
Qed.

(** [find_invalid] returns the offset of the first candidate of the cache
    whose path is the scalar maximum: no candidate before it has that
    path, and it is the end of the cache when there is none. *)
Theorem find_invalid_first (candidates : list intersection_type) :
  0 <= find_invalid candidates <= Z.of_nat (length candidates)
  /\ (forall i c, 0 <= i < find_invalid candidates ->
        deref candidates i = Some c ->
        ~ (intersection2D.path c == scalar_max)%Q)
  /\ (find_invalid candidates < Z.of_nat (length candidates) ->
      exists c, deref candidates (find_invalid candidates) = Some c
                /\ (intersection2D.path c == scalar_max)%Q).
Proof.
  unfold find_invalid.
  destruct (find_if_spec
              (fun candidate : intersection_type =>
                 Qeq_bool (intersection2D.path candidate) scalar_max)
              candidates) as (B & Hbefore & Hat).
  split; [exact B|]. split.
  - intros i c Hi Hc Heq. apply Qeq_bool_iff in Heq.
    rewrite (Hbefore i c Hi Hc) in Heq. discriminate.
  - intro Hlt. destruct (Hat Hlt) as (c & Hc & Pc).
    exists c. split; [exact Hc|]. apply Qeq_bool_iff. exact Pc.
Qed.

(** *** Which candidates an update touches *)

Lemma set_nth_spec {A : Type} (l : list A) (n : nat) (x : A) (l' : list A) :
  set_nth l n x = Some l' ->
  length l' = length l
  /\ forall m, m <> n -> nth_error l' m = nth_error l m.
Proof.
  revert n l'. induction l as [|a l IH]; intros n l' H; [discriminate|].
  destruct n as [|n]; cbn in H.
  - injection H as <-. split; [reflexivity|].
    intros [|m] Hm; [contradiction|reflexivity].
  - destruct (set_nth l n x) as [t|] eqn:E; [|discriminate].
    injection H as <-. destruct (IH _ _ E) as [Hlen Hnth].
    split; [cbn; congruence|].
    intros [|m] Hm; [reflexivity|]. cbn. apply Hnth. congruence.
Qed.

Lemma assign_spec {A : Type} (l : list A) (i : Z) (x : A) (l' : list A) :
  assign l i x = Some l' ->
  length l' = length l
  /\ forall j, j <> i -> deref l' j = deref l j.
Proof.
  unfold assign. destruct (i <? 0) eqn:Neg; [discriminate|].
  apply Z.ltb_ge in Neg. intro H.
  destruct (set_nth_spec _ _ _ H) as [Hlen Hnth].
  split; [exact Hlen|]. intros j Hj. unfold deref.
  destruct (j <? 0) eqn:Nj; [reflexivity|]. apply Z.ltb_ge in Nj.
  apply Hnth. lia.
Qed.

Lemma update_candidate_at_spec (nav : state) (it : Z) (track : track_t)
    (cfg : navigation.config) (r : state * bool) :
  update_candidate_at nav it track cfg = Some r ->
  exists l, fst r = with_candidates nav l
            /\ length l = length (m_candidates nav)
            /\ forall j, j <> it -> deref l j = deref (m_candidates nav) j.
Proof.
  unfold update_candidate_at. intro H. break_obind H. break_obind H.
  injection H as <-. exists l. split; [reflexivity|].
  exact (assign_spec _ _ _ E0).
Qed.

(** The high-trust block of [update_kernel] re-intersects the candidate at
    [next] and, when the track has just landed on a module, the one after
    it; no other candidate of the cache is touched, the cache keeps its
    length and [last] stays.  While [next] has not moved, only the
    candidate at [next] can have changed. *)
Theorem high_trust_touches_two_candidates (p : propagator_state)
    (cfg : navigation.config) (r : propagator_state + propagator_state) :
  high_trust_update p cfg = Some r ->
  let q := _navigation (match r with inl q => q | inr q => q end) in
  let n := m_next (_navigation p) in
  length (m_candidates q) = length (m_candidates (_navigation p))
  /\ m_last q = m_last (_navigation p)
  /\ (m_next q = n \/ m_next q = n + 1)
  /\ (forall j, j <> n -> j <> n + 1 ->
        deref (m_candidates q) j = deref (m_candidates (_navigation p)) j)
  /\ (m_next q = n ->
      forall j, j <> n ->
        deref (m_candidates q) j = deref (m_candidates (_navigation p)) j).
Proof.
  unfold high_trust_update. intro H. cbv zeta. break_obind H.
  destruct (update_candidate_at_spec _ _ _ _ E) as (l1 & Hl1 & Len1 & Oth1).
  unfold next in Oth1.
  destruct (negb (snd p0)).
  { injection H as <-. rewrite Hl1. cbn.
    split; [exact Len1|]. split; [reflexivity|]. split; [auto|].
    split; [intros j Hj _; exact (Oth1 j Hj)|intros _ j Hj; exact (Oth1 j Hj)]. }
  break_obind H.
  destruct (update_navigation_state_inv _ _ E0)
    as (_ & Hc & Hl & _ & _ & (c & _ & Hcase) & _).
  rewrite Hl1 in Hc, Hl, Hcase. cbn in Hc, Hl, Hcase.
  assert (m_next s = m_next (_navigation p)
          \/ m_next s = m_next (_navigation p) + 1) as Hn
      by (destruct Hcase as [(_ & _ & Hn)|(_ & _ & Hn & _)]; auto).
  destruct (navigation.status_eqb (status s) navigation.e_towards_object
            || navigation.trust_eqb (trust_level s) navigation.e_no_trust) eqn:G.
  { injection H as <-. cbn. rewrite Hc, Hl.
    split; [exact Len1|]. split; [reflexivity|]. split; [exact Hn|].
    split; [intros j Hj _; exact (Oth1 j Hj)|intros _ j Hj; exact (Oth1 j Hj)]. }
  apply orb_false_iff in G. destruct G as [G _].
  assert (m_next s = m_next (_navigation p) + 1) as Hadv.
  { destruct Hcase as [(_ & Hst & _)|(_ & _ & Hn' & _)]; [|exact Hn'].
    unfold status in G. rewrite Hst in G. discriminate. }
  break_obind H.
  destruct (update_candidate_at_spec _ _ _ _ E1) as (l3 & Hl3 & Len3 & Oth3).
  unfold next in Oth3. rewrite Hadv in Oth3. rewrite Hc in Len3, Oth3.
  assert (forall q' : state,
            m_candidates q' = l3 -> m_last q' = m_last s ->
            m_next q' = m_next s ->
            length (m_candidates q') = length (m_candidates (_navigation p))
            /\ m_last q' = m_last (_navigation p)
            /\ (m_next q' = m_next (_navigation p)
                \/ m_next q' = m_next (_navigation p) + 1)
            /\ (forall j, j <> m_next (_navigation p) ->
                  j <> m_next (_navigation p) + 1 ->
                  deref (m_candidates q') j
                  = deref (m_candidates (_navigation p)) j)
            /\ (m_next q' = m_next (_navigation p) ->
                forall j, j <> m_next (_navigation p) ->
                  deref (m_candidates q') j
                  = deref (m_candidates (_navigation p)) j)) as Hfin.
  { intros q' Q1 Q2 Q3. rewrite Q1, Q2, Q3, Hl.
    split; [congruence|]. split; [reflexivity|]. split; [exact Hn|].
    split.
    - intros j Hj Hj'. rewrite (Oth3 j Hj'). exact (Oth1 j Hj).
    - intro C. lia. }
  destruct (snd p1); injection H as <-; rewrite Hl3; apply Hfin; reflexivity.
Qed.

(** The fair-trust block of [update_kernel] runs on a range of the cache
    and leaves the candidates before [next] as they are; afterwards [last]
    is the first invalidated candidate of the whole cache and [next] has
    moved by at most one.  With a sort that keeps the length of its range,
    the cache keeps its length and the candidates from the old [last] on
    are untouched as well. *)
Theorem fair_trust_keeps_passed_candidates (p p1 : propagator_state)
    (cfg : navigation.config) :
  fair_trust_update p cfg = Some p1 ->
  let old := _navigation p in
  let new := _navigation p1 in
  0 <= m_next old <= m_last old
  /\ m_last old <= Z.of_nat (length (m_candidates old))
  /\ (forall j, j < m_next old ->
        deref (m_candidates new) j = deref (m_candidates old) j)
  /\ m_last new = find_invalid (m_candidates new)
  /\ (m_next new = m_next old \/ m_next new = m_next old + 1)
  /\ ((forall l, length (sequential_sort l) = length l) ->
      length (m_candidates new) = length (m_candidates old)
      /\ forall j, m_last old <= j ->
           deref (m_candidates new) j = deref (m_candidates old) j).
Proof.
  unfold fair_trust_update. intro H. cbv zeta.
  destruct ((0 <=? m_next (_navigation p))
            && (m_next (_navigation p) <=? m_last (_navigation p))
            && (m_last (_navigation p)
                <=? Z.of_nat (length (m_candidates (_navigation p))))) eqn:G;
    [|discriminate].
  apply andb_true_iff in G. destruct G as [G G3].
  apply andb_true_iff in G. destruct G as [G1 G2].
  apply Z.leb_le in G1, G2, G3.
  break_obind H. injection H as <-.
  destruct (update_navigation_state_inv _ _ E)
    as (_ & Hc & Hl & _ & _ & (c & _ & Hcase) & _).
  cbn in Hc, Hl, Hcase. cbn [with_navigation _navigation].
  set (l := m_candidates (_navigation p)) in *.
  set (first := Z.to_nat (m_next (_navigation p))) in *.
  set (len := Z.to_nat (m_last (_navigation p) - m_next (_navigation p))) in *.
  assert (length (firstn first l) = first) as Hpre
      by (apply firstn_length_le; lia).
  split; [lia|]. split; [lia|]. split; [|split; [|split]].
  - intros j Hj. rewrite Hc. unfold deref.
    destruct (j <? 0) eqn:Nj; [reflexivity|]. apply Z.ltb_ge in Nj.
    rewrite nth_error_app1 by lia.
    rewrite nth_error_firstn.
    destruct (Nat.ltb (Z.to_nat j) first) eqn:L; [reflexivity|].
    apply Nat.ltb_ge in L. lia.
  - rewrite Hl, Hc. reflexivity.
  - destruct Hcase as [(_ & _ & Hn)|(_ & _ & Hn & _)]; auto.
  - intro Hsort.
    assert (length (sequential_sort
                      (map (refresh_candidate (_stepping p)
                              (m_detector (_navigation p)) cfg)
                           (firstn len (skipn first l)))) = len) as Hmid.
    { rewrite Hsort, length_map. apply firstn_length_le.
      rewrite length_skipn. lia. }
    split.
    + rewrite Hc, !length_app, Hpre, Hmid, length_skipn. lia.
    + intros j Hj. rewrite Hc. unfold deref.
      destruct (j <? 0) eqn:Nj; [reflexivity|]. apply Z.ltb_ge in Nj.
      rewrite nth_error_app2 by lia. rewrite Hpre.
      rewrite nth_error_app2 by lia. rewrite Hmid.
      rewrite nth_error_skipn. f_equal. lia.
Qed.

(** *** Re-initialisation *)

Lemma init_same_frame (p q : propagator_state) (cfg : navigation.config) :
  frame_preserved p q -> init q cfg = init p cfg.
Proof.
  destruct p as [tp [hbp detp csp nxp lap stp dirp tlp volp]].
  destruct q as [tq [hbq detq csq nxq laq stq dirq tlq volq]].
  intros (F1 & F2 & F3 & F4). cbn in F1, F2, F3, F4. subst.
  unfold init, update_navigation_state, next_candidate, current_candidate,
    current, next, volume, trust_level.
  cbn [_navigation _stepping m_detector m_volume_index clear with_heartbeat
       with_candidates set_next set_last m_candidates m_next m_last].
  destruct (deref _ 0) as [c|]; cbn [obind]; [|reflexivity].
  destruct (is_on_object c cfg); cbn [obind].
  - destruct (deref _ (0 + 1 - 1)) as [cur|]; cbn [obind]; [|reflexivity].
    destruct (is_portal (intersection2D.sf_desc cur)); reflexivity.
  - reflexivity.
Qed.

(** [init] forgets the cache, the cursors, the status, the trust level and
    the heartbeat it finds: its result depends only on the track, the
    detector, the direction and the volume.  So it is idempotent. *)
Theorem init_forgets_state (p : propagator_state) (cfg : navigation.config) :
  (forall q, frame_preserved p q -> init q cfg = init p cfg)
  /\ (forall r, init p cfg = Some r -> init (fst r) cfg = Some r).
Proof.
  split; [intros q; apply init_same_frame|].
  intros r H. rewrite (init_same_frame cfg (init_frame _ _ H)). exact H.
Qed.

(** Without trust, [update] is a re-initialisation: when [init] succeeds
    [update] returns what [init] returns; when [init] fails and the track
    is not on a portal, [update] returns the state [init] left, aborted. *)
Theorem update_without_trust (p : propagator_state) (cfg : navigation.config)
    (r : propagator_state * bool) :
  trust_level (_navigation p) = navigation.e_no_trust ->
  init p cfg = Some r ->
  (snd r = true -> update p cfg = Some r)
  /\ (snd r = false ->
      status (_navigation (fst r)) <> navigation.e_on_portal ->
      update p cfg
      = Some (with_navigation (fst r) (fst (abort (_navigation (fst r)))),
              false)).
Proof.
  intros T H.
  destruct (init_inv _ _ H) as (Hs & _ & _ & R & Hb).
  pose proof (init_frame _ _ H) as F.
  assert (update_kernel p cfg
          = Some (with_navigation (fst r)
                    (with_heartbeat (_navigation (fst r)) (snd r)))) as Hk.
  { unfold update_kernel, update_kernel_tail, heartbeat_and_init, trust_level
      in *. rewrite T. cbn. rewrite andb_false_r. cbn. rewrite T. cbn.
    rewrite H. cbn. rewrite <- Hs, andb_diag. reflexivity. }
  assert (with_navigation (fst r)
            (with_heartbeat (_navigation (fst r)) (snd r)) = fst r) as Heta.
  { rewrite Hs. destruct r as [[t [hb det cs nx la st dir tl vol]] b].
    reflexivity. }
  rewrite Heta in Hk. unfold update. rewrite Hk. cbn [obind].
  split.
  - intro Ht. rewrite Ht in Hs. symmetry in Hs. apply Hb in Hs.
    unfold trust_level. rewrite Hs. cbn. rewrite <- Hb in Hs. rewrite Hs.
    destruct r as [p' b]. cbn in Ht. subst b. reflexivity.
  - intros Hf Hnp.
    assert (m_trust_level (_navigation (fst r)) = navigation.e_no_trust) as N.
    { destruct R as (_ & _ & [C|C] & _); [|exact C].
      apply Hb in C. congruence. }
    unfold trust_level. rewrite N. cbn.
    assert (is_on_portal (_navigation (fst r)) = false) as P.
    { unfold is_on_portal.
      destruct (navigation.status_eqb _ _) eqn:E; [|reflexivity].
      apply status_eqb_eq in E. contradiction. }
    rewrite P. unfold heartbeat_and_init.
    rewrite (init_same_frame cfg F), H. cbn [obind].
    unfold trust_level. cbn. rewrite N. cbn. reflexivity.
Qed.

(** The sanity check at the end of [update]: when the kernel had work to
    do and did not end on a portal, an [update] that returns true leaves
    full trust, a cache that is not exhausted, and a track that is moving
    towards a candidate or standing on a module. *)
Theorem update_alive_keeps_a_target (p p1 : propagator_state)
    (cfg : navigation.config) (r : propagator_state * bool) :
  trust_level (_navigation p) <> navigation.e_full ->
  update_kernel p cfg = Some p1 ->
  is_on_portal (_navigation p1) = false ->
  update p cfg = Some r ->
  snd r = true ->
  trust_level (_navigation (fst r)) = navigation.e_full
  /\ is_exhausted (_navigation (fst r)) = false
  /\ (status (_navigation (fst r)) = navigation.e_towards_object
      \/ status (_navigation (fst r)) = navigation.e_on_module).
Proof.
  intros Hpre Hk Hnp H Htrue.
  assert (forall nav, refreshed nav -> m_trust_level nav = navigation.e_full ->
            is_exhausted nav = false
            /\ (m_status nav = navigation.e_towards_object
                \/ m_status nav = navigation.e_on_module)) as Hgood.
  { intros nav (R1 & _ & _ & R4) F. destruct (R4 F) as [Hex Hp].
    split; [exact Hex|]. destruct R1 as [?|[?|?]]; auto. contradiction. }
  unfold update in H. rewrite Hk in H. cbn [obind] in H.
  destruct (navigation.trust_eqb (trust_level (_navigation p1)) navigation.e_full)
    eqn:T.
  - injection H as <-. cbn [fst]. apply trust_eqb_eq in T.
    split; [exact T|].
    destruct (update_kernel_inv _ _ Hk Hpre) as [[R|[_ N]] _].
    + exact (Hgood _ R T).
    + unfold trust_level in T. congruence.
  - rewrite Hnp in H. break_obind H.
    destruct (heartbeat_and_init_inv _ _ E) as (_ & _ & R & _).
    destruct (navigation.trust_eqb (trust_level (_navigation p0)) navigation.e_full)
      eqn:T1; cbn [negb orb] in H.
    + destruct (is_exhausted (_navigation p0)) eqn:X; injection H as <-.
      * cbn in Htrue. discriminate.
      * cbn [fst]. apply trust_eqb_eq in T1. split; [exact T1|].
        exact (Hgood _ R T1).
    + injection H as <-. cbn in Htrue. discriminate.
Qed.

End Detector.

End navigator_facts.

(** ** The intersectors *)

Module intersectors_facts.

Import intersectors.

Section Intersection.

Context {I : intersection_traits} {base : cylinder_intersector}.

(** C7 (amended): for a wire not parallel to the track, the line
    intersector keeps an intersection whose path is at least
    overstep_tolerance, the cutoff itself included, when the mask check says
    inside: the record gets status inside and that path.  Below the cutoff
    the record is the default one with only the path set. *)
Theorem line_overstep_cutoff_is_inclusive (ray : ray_type) (sf : surface_t)
    (mask : line_mask) (trf : transform3) (mask_tolerance overstep_tol : Q) :
  parallel ray trf = false ->
  let A := closest_approach ray trf in
  let r := line_intersector ray sf mask trf mask_tolerance overstep_tol in
  ((overstep_tol <= A)%Q ->
   is_inside mask
     (to_local_frame mask trf (vadd (pos ray) (vscale (dir ray) A)) (dir ray))
     mask_tolerance = intersection.e_inside ->
   intersection2D.status r = intersection.e_inside
   /\ intersection2D.path r = A
   /\ intersection2D.sf_desc r = sf)
  /\ ((A < overstep_tol)%Q -> r = with_path blank A).
Proof.
  intros Hpar A r. subst r. unfold line_intersector. rewrite Hpar.
  fold A. cbn [with_path intersection2D.path]. split.
  - intros Hle Hin. apply Qle_bool_iff in Hle. rewrite Hle.
    cbn [with_local with_status intersection2D.local intersection2D.status].
    rewrite Hin. cbn. repeat split; reflexivity.
  - intro Hlt. destruct (Qle_bool overstep_tol A) eqn:E; [|reflexivity].
    apply Qle_bool_iff in E. exfalso. exact (Qlt_not_le _ _ Hlt E).
Qed.

(** C8: with at least one solution, a smaller root at or below
    overstep_tolerance and a larger root above it, the candidate is built
    from the larger root; with both roots above it, from the smaller root;
    with the larger root at or below it, or without a solution, the result
    has status missed. *)
Theorem cylinder_portal_root_selection (ray : ray_type) (sf : surface_t)
    (mask : cylinder_mask) (trf : transform3) (mask_tolerance overstep_tol : Q) :
  let qe := solve_intersection ray mask trf in
  let r := cylinder_portal_intersector ray sf mask trf mask_tolerance
             overstep_tol in
  (0 < solutions qe -> (smaller qe <= overstep_tol)%Q ->
   (overstep_tol < larger qe)%Q ->
   r = with_sf_desc
         (build_candidate ray mask trf (larger qe) mask_tolerance overstep_tol) sf)
  /\ (0 < solutions qe -> (overstep_tol < smaller qe)%Q ->
      (overstep_tol < larger qe)%Q ->
      r = with_sf_desc
            (build_candidate ray mask trf (smaller qe) mask_tolerance overstep_tol)
            sf)
  /\ (solutions qe <= 0 \/ (larger qe <= overstep_tol)%Q ->
      intersection2D.status r = intersection.e_missed).
Proof.
  intros qe r. subst r. unfold cylinder_portal_intersector. fold qe.
  split; [|split].
  - intros Hs Hsm Hla. apply Z.ltb_lt in Hs. rewrite Hs.
    apply Qlt_bool_iff in Hla. rewrite Hla. cbn [andb].
    destruct (Qlt_bool overstep_tol (smaller qe)) eqn:E; [|reflexivity].
    apply Qlt_bool_iff in E. exfalso. exact (Qlt_not_le _ _ E Hsm).
  - intros Hs Hsm Hla. apply Z.ltb_lt in Hs. rewrite Hs.
    apply Qlt_bool_iff in Hla, Hsm. rewrite Hla, Hsm. reflexivity.
  - intros [Hs|Hla].
    + apply Z.ltb_ge in Hs. rewrite Hs. reflexivity.
    + destruct (Qlt_bool overstep_tol (larger qe)) eqn:E.
      * apply Qlt_bool_iff in E. exfalso. exact (Qlt_not_le _ _ E Hla).
      * rewrite andb_false_r. reflexivity.
Qed.

(** *** Further properties of the intersectors *)

Lemma not_parallel_denominator (ray : ray_type) (trf : transform3) :
  parallel ray trf = false ->
  let zd := dot (getter_vector3 (matrix trf) 0 2) (dir ray) in
  ((1 # 100000) <= 1 - zd * zd)%Q.
Proof.
  unfold parallel. cbv zeta. intro H.
  destruct (Qlt_le_dec (1 - dot (getter_vector3 (matrix trf) 0 2) (dir ray)
                            * dot (getter_vector3 (matrix trf) 0 2) (dir ray))
                       (1 # 100000)) as [L|L]; [|exact L].
  apply Qlt_bool_iff in L. congruence.
Qed.

(** When the line intersector returns an inside record (the default
    record not being one), the wire is not parallel to the track, the path
    is the closest approach and is not below the overstep tolerance, the
    mask accepted the local point, the record names the surface and the
    mask's volume link, the direction is opposite exactly for a negative
    path, and the cosine of the incidence angle is |z.d|, in [0, 1). *)
Theorem line_inside_record (ray : ray_type) (sf : surface_t) (mask : line_mask)
    (trf : transform3) (mask_tolerance overstep_tol : Q) :
  intersection2D.status blank <> intersection.e_inside ->
  let A := closest_approach ray trf in
  let zd := dot (getter_vector3 (matrix trf) 0 2) (dir ray) in
  let r := line_intersector ray sf mask trf mask_tolerance overstep_tol in
  intersection2D.status r = intersection.e_inside ->
  parallel ray trf = false
  /\ (overstep_tol <= A)%Q
  /\ intersection2D.path r = A
  /\ intersection2D.local r
     = to_local_frame mask trf (vadd (pos ray) (vscale (dir ray) A)) (dir ray)
  /\ is_inside mask (intersection2D.local r) mask_tolerance
     = intersection.e_inside
  /\ intersection2D.sf_desc r = sf
  /\ intersection2D.volume_link r = volume_link mask
  /\ intersection2D.direction r
     = (if Qlt_bool A 0 then intersection.e_opposite else intersection.e_along)
  /\ intersection2D.cos_incidence_angle r = Qabs zd
  /\ (0 <= Qabs zd)%Q /\ (Qabs zd < 1)%Q.
Proof.
  intros Hblank A zd r. subst r. unfold line_intersector.
  destruct (parallel ray trf) eqn:Hpar.
  { cbn. intro C. discriminate. }
  fold A. cbn [with_path intersection2D.path].
  destruct (Qle_bool overstep_tol A) eqn:Hle.
  2:{ cbn. intro C. contradiction. }
  cbn [with_local with_status intersection2D.local intersection2D.status].
  destruct (is_inside mask _ mask_tolerance) eqn:Hin; cbn;
    intro C; try discriminate.
  split; [reflexivity|]. split; [apply Qle_bool_iff; exact Hle|].
  do 2 (split; [reflexivity|]). split; [exact Hin|].
  do 4 (split; [reflexivity|]).
  split; [apply Qabs_nonneg|].
  pose proof (not_parallel_denominator ray trf Hpar) as Hden.
  cbv zeta in Hden. fold zd in Hden.
  apply Qabs_case; intro Hs.
  - destruct (Qlt_le_dec zd 1) as [L|L]; [exact L|]. exfalso.
    assert (1 <= zd * zd)%Q by nra. lra.
  - destruct (Qlt_le_dec (- zd) 1) as [L|L]; [exact L|]. exfalso.
    assert (1 <= zd * zd)%Q by nra. lra.
Qed.

(** Re-intersecting in place is idempotent for a fixed track: a second
    [update] of either intersector leaves the record the first one
    produced.  The surface descriptor is what carries over, and it is kept
    exactly where the result depends on it. *)
Theorem intersector_update_idempotent (ray : ray_type) (sfi : intersection_t)
    (trf : transform3) (mask_tolerance overstep_tol : Q) :
  (forall mask : line_mask,
     line_intersector_update ray
       (line_intersector_update ray sfi mask trf mask_tolerance overstep_tol)
       mask trf mask_tolerance overstep_tol
     = line_intersector_update ray sfi mask trf mask_tolerance overstep_tol)
  /\ (forall mask : cylinder_mask,
       cylinder_portal_intersector_update ray
         (cylinder_portal_intersector_update ray sfi mask trf mask_tolerance
            overstep_tol)
         mask trf mask_tolerance overstep_tol
       = cylinder_portal_intersector_update ray sfi mask trf mask_tolerance
           overstep_tol).
Proof.
  split; intro mask.
  - unfold line_intersector_update, line_intersector.
    destruct (parallel ray trf); [reflexivity|].
    cbn [with_path intersection2D.path].
    destruct (Qle_bool overstep_tol (closest_approach ray trf));
      [|reflexivity].
    cbn [with_local with_status intersection2D.local intersection2D.status].
    destruct (intersection.status_eqb _ intersection.e_inside); reflexivity.
  - unfold cylinder_portal_intersector_update, cylinder_portal_intersector.
    destruct (_ && _); reflexivity.
Qed.

(** A re-intersection keeps the record's surface descriptor only where a
    candidate is produced: the line intersector when the result is inside,
    the cylinder portal intersector when a root lies beyond the overstep
    tolerance.  Otherwise the record falls back to the descriptor of the
    default record. *)
Theorem intersector_update_surface (ray : ray_type) (sfi : intersection_t)
    (trf : transform3) (mask_tolerance overstep_tol : Q) :
  (forall mask : line_mask,
     let r := line_intersector_update ray sfi mask trf mask_tolerance
                overstep_tol in
     intersection2D.sf_desc r
     = (if (negb (parallel ray trf)
            && Qle_bool overstep_tol (closest_approach ray trf)
            && intersection.status_eqb (intersection2D.status r)
                 intersection.e_inside)%bool
        then intersection2D.sf_desc sfi
        else intersection2D.sf_desc blank))
  /\ (forall mask : cylinder_mask,
       let qe := solve_intersection ray mask trf in
       let r := cylinder_portal_intersector_update ray sfi mask trf
                  mask_tolerance overstep_tol in
       if ((0 <? solutions qe) && Qlt_bool overstep_tol (larger qe))%bool
       then intersection2D.sf_desc r = intersection2D.sf_desc sfi
       else r = with_status blank intersection.e_missed).
Proof.
  split; intro mask; cbv zeta.
  - unfold line_intersector_update, line_intersector.
    destruct (parallel ray trf); [reflexivity|].
    cbn [with_path intersection2D.path negb andb].
    destruct (Qle_bool overstep_tol (closest_approach ray trf));
      [|reflexivity].
    cbn [with_local with_status intersection2D.local intersection2D.status
         andb].
    destruct (is_inside mask _ mask_tolerance); reflexivity.
  - unfold cylinder_portal_intersector_update, cylinder_portal_intersector.
    destruct (_ && _); reflexivity.
Qed.

(** When a root lies beyond the overstep tolerance, the cylinder portal
    intersector builds its candidate from a root that itself lies beyond
    the tolerance, and, the roots being in order, from the smallest such
    root. *)
Theorem cylinder_portal_closest_root (ray : ray_type) (sf : surface_t)
    (mask : cylinder_mask) (trf : transform3) (mask_tolerance overstep_tol : Q) :
  let qe := solve_intersection ray mask trf in
  0 < solutions qe ->
  (overstep_tol < larger qe)%Q ->
  exists t,
    cylinder_portal_intersector ray sf mask trf mask_tolerance overstep_tol
    = with_sf_desc
        (build_candidate ray mask trf t mask_tolerance overstep_tol) sf
    /\ (t = smaller qe \/ t = larger qe)
    /\ (overstep_tol < t)%Q
    /\ ((smaller qe <= larger qe)%Q ->
        ((overstep_tol < smaller qe)%Q -> (t <= smaller qe)%Q)
        /\ (t <= larger qe)%Q).
Proof.
  intros qe Hs Hla. unfold cylinder_portal_intersector. fold qe.
  apply Z.ltb_lt in Hs. rewrite Hs.
  pose proof Hla as Hla'. apply Qlt_bool_iff in Hla'. rewrite Hla'. cbn [andb].
  destruct (Qlt_bool overstep_tol (smaller qe)) eqn:E.
  - apply Qlt_bool_iff in E. exists (smaller qe).
    split; [reflexivity|]. split; [auto|]. split; [exact E|].
    intro Hord. split; [intros _; apply Qle_refl|exact Hord].
  - exists (larger qe).
    split; [reflexivity|]. split; [auto|]. split; [exact Hla|].
    intro Hord. split; [|apply Qle_refl].
    intro C. apply Qlt_bool_iff in C. congruence.
Qed.

End Intersection.

End intersectors_facts.

(** ** The intersectors on the wire *)

Module wire_run.

Import intersectors.

(** Counterexample of C7 as stated: the closest approach lies exactly at
    the overstep tolerance and the record still becomes inside. *)
Lemma line_at_cutoff_is_kept :
  parallel wire.ray wire.trf = false
  /\ (closest_approach wire.ray wire.trf == -100)%Q
  /\ intersection2D.status
       (line_intersector wire.ray 7%N wire.unbounded wire.trf 0 (-100))
     = intersection.e_inside.
Proof. split; [|split]; vm_compute; reflexivity. Qed.

(** Witness of C7 (amended), on the same wire. *)
Lemma line_overstep_cutoff_is_inclusive_witness :
  parallel wire.ray wire.trf = false
  /\ (-100 <= closest_approach wire.ray wire.trf)%Q
  /\ intersection2D.status
       (line_intersector wire.ray 7%N wire.unbounded wire.trf 0 (-100))
     = intersection.e_inside.
Proof.
  assert (parallel wire.ray wire.trf = false) as Hpar
      by (vm_compute; reflexivity).
  assert (-100 <= closest_approach wire.ray wire.trf)%Q as Hle
      by (vm_compute; discriminate).
  split; [exact Hpar|]. split; [exact Hle|].
  exact (proj1 (proj1 (intersectors_facts.line_overstep_cutoff_is_inclusive
                         wire.ray 7%N wire.unbounded wire.trf 0 (-100) Hpar)
                  Hle eq_refl)).
Defined.

(** Witness of C8: radius 300, track at the origin; the root behind the
    track is beyond the overstep tolerance, the one in front is taken. *)
Lemma cylinder_portal_root_selection_witness :
  cylinder_portal_intersector wire.ray 7%N (300%Q : cylinder_mask) wire.trf
    0 (-100)
  = with_sf_desc (build_candidate wire.ray (300%Q : cylinder_mask) wire.trf
                    (larger (solve_intersection wire.ray
                               (300%Q : cylinder_mask) wire.trf))
                    0 (-100))
                 7%N.
Proof.
  refine (proj1 (intersectors_facts.cylinder_portal_root_selection wire.ray
                   7%N (300%Q : cylinder_mask) wire.trf 0 (-100)) _ _ _).
  - vm_compute. reflexivity.
  - vm_compute. discriminate.
  - vm_compute. reflexivity.
Defined.

(** Witness of [line_inside_record]: the wire seen from the origin. *)
Lemma line_inside_record_witness :
  intersection2D.status blank <> intersection.e_inside
  /\ intersection2D.status
       (line_intersector wire.ray 7%N wire.unbounded wire.trf 0 (-100))
     = intersection.e_inside
  /\ (Qabs (dot (getter_vector3 (matrix wire.trf) 0 2) (dir wire.ray)) < 1)%Q.
Proof.
  assert (intersection2D.status blank <> intersection.e_inside) as Hb
      by (vm_compute; discriminate).
  assert (intersection2D.status
            (line_intersector wire.ray 7%N wire.unbounded wire.trf 0 (-100))
          = intersection.e_inside) as Hin by (vm_compute; reflexivity).
  split; [exact Hb|]. split; [exact Hin|].
  destruct (intersectors_facts.line_inside_record (I := wire.traits)
              wire.ray 7%N wire.unbounded
              wire.trf 0 (-100) Hb Hin)
    as (_ & _ & _ & _ & _ & _ & _ & _ & _ & _ & Hcos).
  exact Hcos.
Defined.

(** Witness of [cylinder_portal_closest_root]: radius 300 seen from the
    origin. *)
Lemma cylinder_portal_closest_root_witness :
  0 < solutions (solve_intersection wire.ray (300%Q : cylinder_mask) wire.trf)
  /\ (-100 < larger (solve_intersection wire.ray (300%Q : cylinder_mask)
                       wire.trf))%Q
  /\ exists t,
       cylinder_portal_intersector wire.ray 7%N (300%Q : cylinder_mask)
         wire.trf 0 (-100)
       = with_sf_desc
           (build_candidate wire.ray (300%Q : cylinder_mask) wire.trf t 0
              (-100)) 7%N
       /\ (-100 < t)%Q.
Proof.
  assert (0 < solutions (solve_intersection wire.ray (300%Q : cylinder_mask)
                           wire.trf)) as Hs by (vm_compute; reflexivity).
  assert (-100 < larger (solve_intersection wire.ray (300%Q : cylinder_mask)
                           wire.trf))%Q as Hla by (vm_compute; reflexivity).
  split; [exact Hs|]. split; [exact Hla|].
  destruct (intersectors_facts.cylinder_portal_closest_root
              (I := wire.traits) (base := wire.base) wire.ray 7%N
              300%Q wire.trf 0 Hs Hla)
    as (t & Hr & _ & Ht & _).
  exists t. split; [exact Hr|exact Ht].
Defined.

End wire_run.

(** ** The navigator on the telescope *)

Module telescope_run.

Import navigator.

Example init_in_front_of_first_module :
  telescope.observe
    (init (telescope.at_track (-5000) (telescope.start 0 navigation.e_no_trust))
          telescope.cfg)
  = Some (true, true, navigation.e_towards_object, navigation.e_full, 0%N).
Proof. vm_compute. reflexivity. Qed.

Example volume_switch_on_portal :
  telescope.observe
    (update (telescope.at_track 20000 (telescope.start 0 navigation.e_no_trust))
            telescope.cfg)
  = Some (true, true, navigation.e_towards_object, navigation.e_full, 1%N).
Proof. vm_compute. reflexivity. Qed.

Example leaving_the_world :
  telescope.observe
    (update (telescope.at_track 40000 (telescope.start 1 navigation.e_no_trust))
            telescope.cfg)
  = Some (false, false, navigation.e_on_target, navigation.e_full, 65535%N).
Proof. vm_compute. reflexivity. Qed.

(** Witness of C1: the track stands on the portal from volume 0 to 1. *)
Lemma update_on_portal_witness :
  let p := telescope.at_track 20000 (telescope.start 0 navigation.e_no_trust) in
  let p1 := telescope.after_kernel p in
  update_kernel p telescope.cfg = Some p1
  /\ status (_navigation p1) = navigation.e_on_portal
  /\ trust_level (_navigation p1) <> navigation.e_full
  /\ exists cur, current_candidate (_navigation p1) = Some cur.
Proof.
  cbv zeta.
  assert (update_kernel
            (telescope.at_track 20000 (telescope.start 0 navigation.e_no_trust))
            telescope.cfg
          = Some (telescope.after_kernel
                    (telescope.at_track 20000
                       (telescope.start 0 navigation.e_no_trust)))) as Hk
      by (vm_compute; reflexivity).
  assert (status (_navigation
                    (telescope.after_kernel
                       (telescope.at_track 20000
                          (telescope.start 0 navigation.e_no_trust))))
          = navigation.e_on_portal) as Hst by (vm_compute; reflexivity).
  assert (trust_level (_navigation
                    (telescope.after_kernel
                       (telescope.at_track 20000
                          (telescope.start 0 navigation.e_no_trust))))
          <> navigation.e_full) as Htr by (vm_compute; discriminate).
  split; [exact Hk|]. split; [exact Hst|]. split; [exact Htr|].
  destruct (navigator_facts.update_on_portal _ _ Hk Hst Htr)
    as [cur [Hcur _]].
  exists cur. exact Hcur.
Defined.

(** The cache of volume 2 with the track on its only module, before it is
    classified: [next] at the module, [last] at the end of the cache. *)
Definition on_last_module : state := set_next (telescope.initialised 0 2) 0.

(** Witness of C2: the only candidate is a module the track stands on;
    [next] advances onto the end of the cache, which is exhausted. *)
Lemma update_navigation_state_trust_witness :
  0 <= m_next on_last_module < Z.of_nat (length (m_candidates on_last_module))
  /\ exists nav',
       update_navigation_state telescope.cfg on_last_module = Some nav'
       /\ m_next nav' = 1
       /\ status nav' = navigation.e_on_module
       /\ trust_level nav' = navigation.e_no_trust.
Proof.
  assert (0 <= m_next on_last_module
          < Z.of_nat (length (m_candidates on_last_module)))
    as Hrange by (vm_compute; split; [discriminate|reflexivity]).
  split; [exact Hrange|].
  destruct (navigator_facts.update_navigation_state_trust telescope.cfg
              on_last_module Hrange)
    as (c & nav' & Hc & Hrun & Hn & Hst & _ & _ & _ & _ & _ & Htr & _).
  assert (next_candidate on_last_module
          = Some (telescope.intersect 0 telescope.module0 : intersection_type))
    as Hc0 by (vm_compute; reflexivity).
  rewrite Hc0 in Hc. injection Hc as <-.
  exists nav'. split; [exact Hrun|].
  split; [rewrite Hn; vm_compute; reflexivity|].
  split; [rewrite Hst; vm_compute; reflexivity|].
  rewrite Htr. vm_compute. reflexivity.
Defined.

(** Counterexample of C3 as stated: [abort] on a state without trust
    writes trust [full], and so does [exit]. *)
Lemma abort_writes_full_trust :
  trust_level (telescope.start 0 navigation.e_no_trust) = navigation.e_no_trust
  /\ trust_level (fst (abort (telescope.start 0 navigation.e_no_trust)))
     = navigation.e_full
  /\ trust_level (fst (exit (telescope.start 0 navigation.e_no_trust)))
     = navigation.e_full.
Proof. repeat split. Qed.




(** Counterexample of C6 as stated: a candidate whose path equals the
    on-surface tolerance is not on the object. *)
Lemma at_tolerance_not_on_object :
  let c : intersection_type := telescope.intersect (-1) telescope.module0 in
  (intersection2D.path c == navigation.on_surface_tolerance telescope.cfg)%Q
  /\ is_on_object c telescope.cfg = false.
Proof. split; vm_compute; reflexivity. Qed.

(** Witness of C6 (amended): the first module seen from 5 mm in front. *)
Lemma on_object_test_is_strict_witness :
  let nav := telescope.initialised (-5000) 0 in
  let c : intersection_type := telescope.intersect (-5000) telescope.module0 in
  next_candidate nav = Some c
  /\ (0 <= 4999)%Q
  /\ (intersection2D.path c
      == navigation.on_surface_tolerance telescope.cfg + 4999)%Q
  /\ is_on_object c telescope.cfg = false.
Proof.
  cbv zeta.
  assert (next_candidate (telescope.initialised (-5000) 0)
          = Some (telescope.intersect (-5000) telescope.module0
                  : intersection_type)) as Hn
      by (vm_compute; reflexivity).
  assert (0 <= 4999)%Q as He by (vm_compute; discriminate).
  assert (intersection2D.path
            (telescope.intersect (-5000) telescope.module0 : intersection_type)
          == navigation.on_surface_tolerance telescope.cfg + 4999)%Q as Hp
      by (vm_compute; reflexivity).
  split; [exact Hn|]. split; [exact He|]. split; [exact Hp|].
  exact (proj1 (navigator_facts.on_object_test_is_strict telescope.cfg
                  (telescope.initialised (-5000) 0) Hn He Hp)).
Defined.

(** The track standing on the portal from volume 0 to volume 1. *)
Definition on_portal_to_1 : propagator_state :=
  telescope.at_track 20000 (telescope.start 0 navigation.e_no_trust).

(** The track on the first module, with the trust level an actor left. *)
Definition on_first_module (lowered : state -> state) : propagator_state :=
  telescope.at_track 0 (lowered (telescope.initialised (-5000) 0)).

(** Witness of [update_is_idempotent]: the volume switch, then an update
    further along the track. *)
Lemma update_is_idempotent_witness :
  let r := telescope.returned (update on_portal_to_1 telescope.cfg)
             (on_portal_to_1, false) in
  update on_portal_to_1 telescope.cfg = Some r
  /\ update {| _stepping := 25000%Q; _navigation := _navigation (fst r) |}
            telescope.cfg
     = Some ({| _stepping := 25000%Q; _navigation := _navigation (fst r) |},
             snd r).
Proof.
  cbv zeta.
  assert (update on_portal_to_1 telescope.cfg
          = Some (telescope.returned (update on_portal_to_1 telescope.cfg)
                    (on_portal_to_1, false))) as Hu
      by (vm_compute; reflexivity).
  split; [exact Hu|].
  exact (proj2 (navigator_facts.update_is_idempotent _ _ Hu) 25000%Q
           telescope.cfg).
Defined.


(** Witness of [update_navigation_state_writes]: the cache right after
    [init], the track now on the first module. *)
Lemma update_navigation_state_writes_witness :
  let nav := telescope.initialised 0 0 in
  let nav' := telescope.returned (update_navigation_state telescope.cfg nav)
                nav in
  update_navigation_state telescope.cfg nav = Some nav'
  /\ m_candidates nav' = m_candidates nav
  /\ m_last nav' = m_last nav.
Proof.
  cbv zeta.
  assert (update_navigation_state telescope.cfg (telescope.initialised 0 0)
          = Some (telescope.returned
                    (update_navigation_state telescope.cfg
                       (telescope.initialised 0 0))
                    (telescope.initialised 0 0))) as Hu
      by (vm_compute; reflexivity).
  split; [exact Hu|].
  destruct (navigator_facts.update_navigation_state_writes _ _ Hu)
    as (_ & Hc & Hl & _).
  split; [exact Hc|exact Hl].
Defined.

(** Witness of [init_postcondition]: [init] 5 mm in front of the telescope. *)
Lemma init_postcondition_witness :
  let p := telescope.at_track (-5000) (telescope.start 0 navigation.e_no_trust) in
  let r := telescope.returned (init p telescope.cfg) (p, false) in
  init p telescope.cfg = Some r
  /\ m_last (_navigation (fst r))
     = Z.of_nat (length (m_candidates (_navigation (fst r))))
  /\ trust_level (_navigation (fst r))
     = (if snd r then navigation.e_full else navigation.e_no_trust).
Proof.
  cbv zeta.
  assert (init (telescope.at_track (-5000)
                  (telescope.start 0 navigation.e_no_trust)) telescope.cfg
          = Some (telescope.returned
                    (init (telescope.at_track (-5000)
                             (telescope.start 0 navigation.e_no_trust))
                          telescope.cfg)
                    (telescope.at_track (-5000)
                       (telescope.start 0 navigation.e_no_trust), false)))
    as Hi by (vm_compute; reflexivity).
  split; [exact Hi|].
  destruct (navigator_facts.init_postcondition _ _ Hi)
    as (_ & Hl & _ & _ & Ht).
  split; [exact Hl|exact Ht].
Defined.

(** Witness of [update_kernel_resolves_trust]: high trust, the track on
    the first module. *)
Lemma update_kernel_resolves_trust_witness :
  let p := on_first_module set_high_trust in
  let p1 := telescope.after_kernel p in
  update_kernel p telescope.cfg = Some p1
  /\ (trust_level (_navigation p1) = navigation.e_full
      \/ trust_level (_navigation p1) = navigation.e_no_trust).
Proof.
  cbv zeta.
  assert (update_kernel (on_first_module set_high_trust) telescope.cfg
          = Some (telescope.after_kernel (on_first_module set_high_trust)))
    as Hk by (vm_compute; reflexivity).
  split; [exact Hk|].
  exact (proj1 (navigator_facts.update_kernel_resolves_trust _ _ Hk)).
Defined.

(** Witness of [high_trust_touches_two_candidates], on the same state. *)
Lemma high_trust_touches_two_candidates_witness :
  let p := on_first_module set_high_trust in
  let r := telescope.returned (high_trust_update p telescope.cfg) (inl p) in
  high_trust_update p telescope.cfg = Some r
  /\ m_last (_navigation (match r with inl q => q | inr q => q end))
     = m_last (_navigation p).
Proof.
  cbv zeta.
  assert (high_trust_update (on_first_module set_high_trust) telescope.cfg
          = Some (telescope.returned
                    (high_trust_update (on_first_module set_high_trust)
                       telescope.cfg)
                    (inl (on_first_module set_high_trust)))) as Hh
      by (vm_compute; reflexivity).
  split; [exact Hh|].
  destruct (navigator_facts.high_trust_touches_two_candidates _ _ Hh)
    as (_ & Hl & _).
  exact Hl.
Defined.

Lemma telescope_insert_length (c : telescope.candidate)
    (l : list telescope.candidate) :
  length (telescope.insert c l) = S (length l).
Proof.
  induction l as [|h t IH]; [reflexivity|].
  cbn [telescope.insert]. destruct (Qlt_bool _ _); cbn; congruence.
Qed.

Lemma telescope_sort_length (l : list intersection_type) :
  length (sequential_sort l) = length l.
Proof.
  change (length (telescope.sequential_sort l) = length l).
  unfold telescope.sequential_sort.
  induction l as [|h t IH]; [reflexivity|].
  cbn [fold_right]. rewrite telescope_insert_length. cbn. congruence.
Qed.

(** Witness of [fair_trust_keeps_passed_candidates]: fair trust, the track
    on the first module; the telescope's sort keeps the length. *)
Lemma fair_trust_keeps_passed_candidates_witness :
  let p := on_first_module set_fair_trust in
  let p1 := telescope.returned (fair_trust_update p telescope.cfg) p in
  fair_trust_update p telescope.cfg = Some p1
  /\ length (m_candidates (_navigation p1))
     = length (m_candidates (_navigation p))
  /\ m_last (_navigation p1) = find_invalid (m_candidates (_navigation p1)).
Proof.
  cbv zeta.
  assert (fair_trust_update (on_first_module set_fair_trust) telescope.cfg
          = Some (telescope.returned
                    (fair_trust_update (on_first_module set_fair_trust)
                       telescope.cfg)
                    (on_first_module set_fair_trust))) as Hf
      by (vm_compute; reflexivity).
  split; [exact Hf|].
  destruct (navigator_facts.fair_trust_keeps_passed_candidates _ _ Hf)
    as (_ & _ & _ & Hl & _ & Hsort).
  split; [exact (proj1 (Hsort telescope_sort_length))|exact Hl].
Defined.

(** Witness of [update_without_trust]: the first call of a propagation,
    5 mm in front of the telescope. *)
Lemma update_without_trust_witness :
  let p := telescope.at_track (-5000) (telescope.start 0 navigation.e_no_trust) in
  let r := telescope.returned (init p telescope.cfg) (p, false) in
  trust_level (_navigation p) = navigation.e_no_trust
  /\ init p telescope.cfg = Some r
  /\ snd r = true
  /\ update p telescope.cfg = Some r.
Proof.
  cbv zeta.
  assert (trust_level
            (_navigation (telescope.at_track (-5000)
                            (telescope.start 0 navigation.e_no_trust)))
          = navigation.e_no_trust) as Ht by reflexivity.
  assert (init (telescope.at_track (-5000)
                  (telescope.start 0 navigation.e_no_trust)) telescope.cfg
          = Some (telescope.returned
                    (init (telescope.at_track (-5000)
                             (telescope.start 0 navigation.e_no_trust))
                          telescope.cfg)
                    (telescope.at_track (-5000)
                       (telescope.start 0 navigation.e_no_trust), false)))
    as Hi by (vm_compute; reflexivity).
  assert (snd (telescope.returned
                 (init (telescope.at_track (-5000)
                          (telescope.start 0 navigation.e_no_trust))
                       telescope.cfg)
                 (telescope.at_track (-5000)
                    (telescope.start 0 navigation.e_no_trust), false))
          = true) as Hs by (vm_compute; reflexivity).
  split; [exact Ht|]. split; [exact Hi|]. split; [exact Hs|].
  exact (proj1 (navigator_facts.update_without_trust _ _ Ht Hi) Hs).
Defined.

(** Witness of [update_alive_keeps_a_target]: high trust, the track on
    the first module. *)
Lemma update_alive_keeps_a_target_witness :
  let p := on_first_module set_high_trust in
  let p1 := telescope.after_kernel p in
  let r := telescope.returned (update p telescope.cfg) (p, false) in
  trust_level (_navigation p) <> navigation.e_full
  /\ update_kernel p telescope.cfg = Some p1
  /\ is_on_portal (_navigation p1) = false
  /\ update p telescope.cfg = Some r
  /\ snd r = true
  /\ is_exhausted (_navigation (fst r)) = false.
Proof.
  cbv zeta.
  assert (trust_level (_navigation (on_first_module set_high_trust))
          <> navigation.e_full) as Hpre by (vm_compute; discriminate).
  assert (update_kernel (on_first_module set_high_trust) telescope.cfg
          = Some (telescope.after_kernel (on_first_module set_high_trust)))
    as Hk by (vm_compute; reflexivity).
  assert (is_on_portal
            (_navigation
               (telescope.after_kernel (on_first_module set_high_trust)))
          = false) as Hnp by (vm_compute; reflexivity).
  assert (update (on_first_module set_high_trust) telescope.cfg
          = Some (telescope.returned
                    (update (on_first_module set_high_trust) telescope.cfg)
                    (on_first_module set_high_trust, false))) as Hu
      by (vm_compute; reflexivity).
  assert (snd (telescope.returned
                 (update (on_first_module set_high_trust) telescope.cfg)
                 (on_first_module set_high_trust, false)) = true) as Hs
      by (vm_compute; reflexivity).
  split; [exact Hpre|]. split; [exact Hk|]. split; [exact Hnp|].
  split; [exact Hu|]. split; [exact Hs|].
  exact (proj1 (proj2 (navigator_facts.update_alive_keeps_a_target
                         _ _ Hpre Hk Hnp Hu Hs))).
Defined.

End telescope_run.
